(** * Sherbet: best-price selection and two-way arbitrage stakes

    A shallow embedding of the computational core of
    [prop_arb_scanner.py] (class [ArbScanner]) and [best_lines.py]
    (class [BestOddsFinder]), and the properties of it that the
    specification states.

    Numbers.  The program computes on JSON numbers (Python [int] and
    [float]).  They are embedded as exact rationals [Q]: comparisons are
    the rational ones, [+ - *] are exact, [/] is Python's true division
    (it raises [ZeroDivisionError] on a zero divisor) and [round(x, 2)]
    rounds the exact value to the nearest hundredth, ties to the even
    hundredth.  Equalities between computed numbers are therefore stated
    with [==] (equality of rationals), and the binary rounding error of
    a hardware float is outside this development.

    Strings are [string] (byte strings); on UTF-8 text the byte-wise
    lexicographic order is the code-point order Python uses. *)

From Stdlib Require Import QArith Qround Qabs Qminmax Lqa Lia ZArith String List.
From stdpp Require Import gmap strings list sorting.

Local Open Scope Q_scope.

(** ** Exceptions *)

Inductive exn : Set :=
| ZeroDivisionError
| ValueError.

Inductive exc (A : Type) : Type :=
| Raise (e : exn)
| Ok (a : A).
Arguments Raise {A} e.
Arguments Ok {A} a.

#[global] Instance exc_ret : MRet exc := fun _ a => Ok a.
#[global] Instance exc_bind : MBind exc := fun _ _ k m =>
  match m with
  | Raise e => Raise e
  | Ok a => k a
  end.

(** Python's [x / y] on numbers. *)
Definition truediv (x y : Q) : exc Q :=
  if Qeq_bool y 0 then Raise ZeroDivisionError else Ok (x / y).

(** ** Rounding: the builtin [round(x, ndigits)] *)

Definition round_half_even (y : Q) : Z :=
  let n := Qfloor y in
  match Qcompare (y - inject_Z n) (1 # 2) with
  | Lt => n
  | Gt => (n + 1)%Z
  | Eq => if Z.even n then n else (n + 1)%Z
  end.

Definition round (x : Q) (ndigits : Z) : Q :=
  let scale := inject_Z (10 ^ ndigits) in
  inject_Z (round_half_even (x * scale)) / scale.

(** ** [ArbScanner.calculate_stakes] (prop_arb_scanner.py, lines 97-120) *)

Record ArbResult : Type := mkArbResult {
  stake_a : Q;
  stake_b : Q;
  profit : Q;
  roi : Q
}.

Definition calculate_stakes (total_budget odds_a odds_b : Q)
  : exc (option ArbResult) :=
  if Qle_bool odds_a 1 || Qle_bool odds_b 1 then mret None
  else
    prob_a ← truediv 1 odds_a;
    prob_b ← truediv 1 odds_b;
    let total_prob := prob_a + prob_b in
    if Qle_bool 1 total_prob then mret None
    else
      stake_a ← truediv (total_budget * prob_a) total_prob;
      stake_b ← truediv (total_budget * prob_b) total_prob;
      let profit := stake_a * odds_a - total_budget in
      q ← truediv profit total_budget;
      let roi := q * 100 in
      mret (Some {| stake_a := round stake_a 2;
                    stake_b := round stake_b 2;
                    profit := round profit 2;
                    roi := round roi 2 |}).

(** The local variables [stake_a], [stake_b] of [calculate_stakes] as
    they stand after line 110, before [profit], [roi] and the rounding
    of the returned record: the same statements, cut after the second
    stake. *)
Definition raw_stakes (total_budget odds_a odds_b : Q)
  : exc (option (Q * Q)) :=
  if Qle_bool odds_a 1 || Qle_bool odds_b 1 then mret None
  else
    prob_a ← truediv 1 odds_a;
    prob_b ← truediv 1 odds_b;
    let total_prob := prob_a + prob_b in
    if Qle_bool 1 total_prob then mret None
    else
      stake_a ← truediv (total_budget * prob_a) total_prob;
      stake_b ← truediv (total_budget * prob_b) total_prob;
      mret (Some (stake_a, stake_b)).

(** The condition under which [calculate_stakes] answers [None]: one of
    its two guards (lines 99 and 105) fires. *)
Definition no_opportunity (odds_a odds_b : Q) : Prop :=
  odds_a <= 1 \/ odds_b <= 1 \/ 1 <= 1 / odds_a + 1 / odds_b.

(** ** The decoded odds feed

    The shape the retrieval layer hands over: per game, per bookmaker, a
    list of market entries, each with a key and its outcome entries. *)

Record Outcome : Type := mkOutcome {
  o_name : string;
  o_price : Q
}.

Record Market : Type := mkMarket {
  m_key : string;
  m_outcomes : list Outcome
}.

Record Book : Type := mkBook {
  title : string;
  bk_markets : list Market
}.

(** [market_data = {'bookmakers': [...]}] *)
Record MarketData : Type := mkMarketData {
  md_bookmakers : list Book
}.

Record Game : Type := mkGame {
  away_team : string;
  home_team : string;
  bookmakers : list Book
}.

(** The dictionaries [best_outcome_a] and [best_outcome_b]. *)
Record Best : Type := mkBest {
  price : Q;
  book : string;
  name : string
}.

(** ** Loops

    A [for] loop whose body may raise: the state is threaded through the
    iterations and the first exception ends the loop. *)
Fixpoint for_each {A S : Type} (body : S -> A -> exc S) (l : list A) (s : S)
  : exc S :=
  match l with
  | [] => mret s
  | x :: l' => s' ← body s x; for_each body l' s'
  end.

(** ** [sorted] on strings *)

Definition str_le (s1 s2 : string) : Prop := String.leb s1 s2 = true.

#[global] Instance str_le_dec : RelDecision str_le.
Proof. intros s1 s2. unfold str_le. apply _. Defined.

Definition sorted (l : list string) : list string := merge_sort str_le l.

(** ** [find_best_odds] (prop_arb_scanner.py, lines 122-148; the same
    text is [BestOddsFinder.find_best_odds], best_lines.py, lines
    90-116) *)

(** First triple loop (lines 127-131): the set of outcome names. *)
Definition outcome_names (market_data : MarketData) : gset string :=
  fold_left (fun names book =>
    fold_left (fun names market =>
      fold_left (fun names outcome => {[ o_name outcome ]} ∪ names)
                (m_outcomes market) names)
              (bk_markets book) names)
            (md_bookmakers market_data) ∅.

(** Body of the second triple loop (lines 140-146), on the pair
    [(best_outcome_a, best_outcome_b)]. *)
Definition update_best (name_a name_b : string) (book : Book)
    (best : Best * Best) (outcome : Outcome) : Best * Best :=
  let '(best_outcome_a, best_outcome_b) := best in
  let price_ := o_price outcome in
  if String.eqb (o_name outcome) name_a
     && negb (Qle_bool price_ (price best_outcome_a))
  then ({| price := price_; book := title book; name := name_a |},
        best_outcome_b)
  else if String.eqb (o_name outcome) name_b
          && negb (Qle_bool price_ (price best_outcome_b))
  then (best_outcome_a,
        {| price := price_; book := title book; name := name_b |})
  else best.

Definition scan_best (name_a name_b : string) (market_data : MarketData)
    (best : Best * Best) : Best * Best :=
  fold_left (fun best book =>
    fold_left (fun best market =>
      fold_left (update_best name_a name_b book) (m_outcomes market) best)
              (bk_markets book) best)
            (md_bookmakers market_data) best.

Definition find_best_odds (market_data : MarketData)
  : exc (option Best * option Best) :=
  let best_outcome_a := {| price := 0; book := ""; name := "" |} in
  let best_outcome_b := {| price := 0; book := ""; name := "" |} in
  let outcome_names := outcome_names market_data in
  if bool_decide (size outcome_names ≠ 2%nat) then mret (None, None)
  else
    match sorted (elements outcome_names) with
    | [name_a; name_b] =>
        let '(best_outcome_a, best_outcome_b) :=
          scan_best name_a name_b market_data
                    (best_outcome_a, best_outcome_b) in
        mret (Some best_outcome_a, Some best_outcome_b)
    | _ => Raise ValueError
    end.

(** ** Dictionaries that keep insertion order

    [game_results["markets"]] is a Python [dict]: [d[k] = v] replaces
    the value of an existing key in place and appends a new key at the
    end; [d.values()] iterates in that order. *)
Section Dict.
Context {V : Type}.

Fixpoint dict_set (k : string) (v : V) (d : list (string * V))
  : list (string * V) :=
  match d with
  | [] => [(k, v)]
  | (k', v') :: d' =>
      if String.eqb k' k then (k, v) :: d' else (k', v') :: dict_set k v d'
  end.

Fixpoint dict_get (k : string) (d : list (string * V)) : option V :=
  match d with
  | [] => None
  | (k', v') :: d' => if String.eqb k' k then Some v' else dict_get k d'
  end.

Definition dict_values (d : list (string * V)) : list V := map snd d.

End Dict.

(** ** [scan_game_markets] *)

(** Lines 158-166 (best_lines.py: 127-135): the bookmakers that quote
    the market, each cut down to that one market entry. *)
Definition market_data_for (game : Game) (market_key : string) : MarketData :=
  {| md_bookmakers :=
       fold_left (fun acc book =>
         match find (fun m => String.eqb (m_key m) market_key)
                    (bk_markets book) with
         | Some market_entry =>
             acc ++ [ {| title := title book;
                         bk_markets := [market_entry] |} ]
         | None => acc
         end) (bookmakers game) [] |}.

Definition game_label (game : Game) : string :=
  (away_team game ++ " @ " ++ home_team game)%string.

(** [ArbScanner.scan_game_markets] (prop_arb_scanner.py, lines 150-184) *)

Record MarketResult : Type := mkMarketResult {
  best_a : Best;
  best_b : Best;
  arb : option ArbResult
}.

Record GameResults : Type := mkGameResults {
  game : string;
  markets : list (string * MarketResult)
}.

Definition scan_market (game : Game) (total_budget : Q)
    (results : list (string * MarketResult)) (m : string * string)
  : exc (list (string * MarketResult)) :=
  let '(market_key, market_name) := m in
  let market_data := market_data_for game market_key in
  match md_bookmakers market_data with
  | [] => mret results
  | _ :: _ =>
      bests ← find_best_odds market_data;
      match bests with
      | (Some best_a, Some best_b) =>
          if Qeq_bool (price best_a) 0 then mret results
          else
            arb_result ← calculate_stakes total_budget
                                          (price best_a) (price best_b);
            mret (dict_set market_name
                           {| best_a := best_a; best_b := best_b;
                              arb := arb_result |} results)
      | _ => mret results
      end
  end.

Definition scan_game_markets (game : Game) (markets : list (string * string))
    (total_budget : Q) : exc GameResults :=
  ms ← for_each (scan_market game total_budget) markets [];
  mret {| game := game_label game; markets := ms |}.

(** [BestOddsFinder.scan_game_markets] (best_lines.py, lines 119-152):
    the same loop without the arbitrage calculation. *)
Module BestLines.

Record MarketResult : Type := mkMarketResult {
  best_a : Best;
  best_b : Best
}.

Record GameResults : Type := mkGameResults {
  game : string;
  markets : list (string * MarketResult)
}.

Definition FEATURED_MARKETS : list (string * string) :=
  [ ("h2h", "Moneyline (Winner)");
    ("spreads", "Point Spread");
    ("totals", "Game Total O/U") ]%string.

Definition scan_market (game : Game)
    (results : list (string * MarketResult)) (m : string * string)
  : exc (list (string * MarketResult)) :=
  let '(market_key, market_name) := m in
  let market_data := market_data_for game market_key in
  match md_bookmakers market_data with
  | [] => mret results
  | _ :: _ =>
      bests ← find_best_odds market_data;
      match bests with
      | (Some best_a, Some best_b) =>
          if Qeq_bool (price best_a) 0 then mret results
          else
            mret (dict_set market_name
                           {| best_a := best_a; best_b := best_b |} results)
      | _ => mret results
      end
  end.

Definition scan_game_markets (game : Game) (markets : list (string * string))
  : exc GameResults :=
  ms ← for_each (scan_market game) markets [];
  mret {| game := game_label game; markets := ms |}.

End BestLines.

(** ** [run_scanner]: collecting and ranking (prop_arb_scanner.py,
    lines 195-213) *)

Definition FEATURED_MARKETS : list (string * string) :=
  [ ("totals", "Game Total O/U") ]%string.

(** Lines 195-199. *)
Definition collect_results (game_data : list Game) (total_budget : Q)
  : exc (list GameResults) :=
  for_each (fun all_game_results game =>
    results ← scan_game_markets game FEATURED_MARKETS total_budget;
    match markets results with
    | [] => mret all_game_results
    | _ :: _ => mret (all_game_results ++ [results])
    end) game_data [].

(** Lines 205-210: the body of the loop of [sort_key], on the pair
    [(arb_found, min_prob)]. *)
Definition sort_key_step (st : Z * Q) (market : MarketResult) : exc (Z * Q) :=
  let '(arb_found, min_prob) := st in
  match arb market with
  | Some _ =>
      pa ← truediv 1 (price (best_a market));
      pb ← truediv 1 (price (best_b market));
      let prob := pa + pb in
      if negb (Qle_bool min_prob prob) then mret (1%Z, prob)
      else mret (1%Z, min_prob)
  | None => mret (arb_found, min_prob)
  end.

(** Lines 202-211. *)
Definition sort_key (item : GameResults) : exc (Z * Q) :=
  st ← for_each sort_key_step (dict_values (markets item)) (0%Z, 2);
  let '(arb_found, min_prob) := st in
  mret ((- arb_found)%Z, min_prob).

(** Python's [<] on the key tuples: the first component that differs
    decides. *)
Definition key_lt (k1 k2 : Z * Q) : bool :=
  if negb (Z.eqb (fst k1) (fst k2)) then Z.ltb (fst k1) (fst k2)
  else if negb (Qeq_bool (snd k1) (snd k2))
       then negb (Qle_bool (snd k2) (snd k1))
       else false.

(** [list.sort(key=...)]: every key is computed first, then the list is
    sorted on the keys with [<] alone, and the sort is stable.  A stable
    insertion sort stands for it. *)
Section StableSort.
Context {K A : Type} (lt : K -> K -> bool).

Fixpoint insert_by (x : K * A) (l : list (K * A)) : list (K * A) :=
  match l with
  | [] => [x]
  | y :: l' => if lt (fst x) (fst y) then x :: y :: l'
               else y :: insert_by x l'
  end.

Definition sort_decorated (l : list (K * A)) : list (K * A) :=
  fold_left (fun acc x => insert_by x acc) l [].

End StableSort.

Fixpoint decorate {A K : Type} (key : A -> exc K) (l : list A)
  : exc (list (K * A)) :=
  match l with
  | [] => mret []
  | x :: l' => k ← key x; kl ← decorate key l'; mret ((k, x) :: kl)
  end.

Definition list_sort {A K : Type} (lt : K -> K -> bool) (key : A -> exc K)
    (l : list A) : exc (list A) :=
  kl ← decorate key l;
  mret (map snd (sort_decorated lt kl)).

(** Line 213. *)
Definition sort_results (all_game_results : list GameResults)
  : exc (list GameResults) :=
  list_sort key_lt sort_key all_game_results.

(** The computation of [run_scanner] between loading the data and
    printing: the ranked list of game results. *)
Definition run_scanner (game_data : list Game) (total_budget : Q)
  : exc (list GameResults) :=
  all_game_results ← collect_results game_data total_budget;
  sort_results all_game_results.

(** ** Vocabulary of the specification for the price aggregator *)

(** The quotes of a snapshot, one per outcome entry, in the order the
    loops of [find_best_odds] visit them, each with the title of its
    bookmaker. *)
Definition quotes (market_data : MarketData) : list (string * Outcome) :=
  flat_map (fun book =>
    flat_map (fun market =>
      map (fun outcome => (title book, outcome)) (m_outcomes market))
      (bk_markets book))
    (md_bookmakers market_data).

(** The set of distinct outcome labels across all quotes. *)
Definition distinct_labels (market_data : MarketData) : gset string :=
  list_to_set (map (fun q => o_name (snd q)) (quotes market_data)).

(** The record both bests start from: price 0, no bookmaker, no label. *)
Definition zero_sentinel : Best := {| price := 0; book := ""; name := "" |}.

Definition has_positive_quote (qs : list (string * Outcome)) (label : string)
  : Prop :=
  exists t o, (t, o) ∈ qs /\ o_name o = label /\ 0 < o_price o.

(** [b] records the first quote of [qs] that attains the greatest price
    among the quotes labelled [label]: every earlier quote with that
    label is strictly cheaper, every later one is not dearer. *)
Definition first_seen_max (qs : list (string * Outcome)) (label : string)
    (b : Best) : Prop :=
  exists l1 t o l2,
    qs = l1 ++ (t, o) :: l2 /\
    o_name o = label /\
    b = {| price := o_price o; book := t; name := label |} /\
    (forall t' o', (t', o') ∈ l1 -> o_name o' = label ->
                   o_price o' < o_price o) /\
    (forall t' o', (t', o') ∈ l2 -> o_name o' = label ->
                   o_price o' <= o_price o).

(** One step of the scan on a quote. *)
Definition update_quote (name_a name_b : string) (best : Best * Best)
    (q : string * Outcome) : Best * Best :=
  update_best name_a name_b {| title := fst q; bk_markets := [] |} best (snd q).

(** What the scan does to one of the two bests, on its own label. *)
Definition step_label (label : string) (b : Best) (q : string * Outcome)
  : Best :=
  if String.eqb (o_name (snd q)) label
     && negb (Qle_bool (o_price (snd q)) (price b))
  then {| price := o_price (snd q); book := fst q; name := label |}
  else b.

(** The state of one best after the quotes [qs]: still the sentinel, no
    quote of its label being above 0, or the first-seen maximum. *)
Definition best_for (qs : list (string * Outcome)) (label : string)
    (b : Best) : Prop :=
  (b = zero_sentinel /\
   forall t o, (t, o) ∈ qs -> o_name o = label -> o_price o <= 0) \/
  (first_seen_max qs label b /\ 0 < price b).

(** ** Sample feeds *)

(** Two bookmakers on one totals market; BookA and BookB both quote
    Over at 1.9, BookB quotes the better Under. *)
Definition snapshot_two_books : MarketData :=
  {| md_bookmakers :=
       [ {| title := "BookA";
            bk_markets := [ {| m_key := "totals";
                               m_outcomes := [ mkOutcome "Over" 1.9;
                                               mkOutcome "Under" 1.95 ] |} ] |};
         {| title := "BookB";
            bk_markets := [ {| m_key := "totals";
                               m_outcomes := [ mkOutcome "Under" 2.05;
                                               mkOutcome "Over" 1.9 ] |} ] |} ] |}.

(** One bookmaker whose Over quote carries the price 0. *)
Definition snapshot_zero_over : MarketData :=
  {| md_bookmakers :=
       [ {| title := "BookA";
            bk_markets := [ {| m_key := "totals";
                               m_outcomes := [ mkOutcome "Over" 0;
                                               mkOutcome "Under" 1.95 ] |} ] |} ] |}.

(** Two bookmakers, both quoting Over at the price 0. *)
Definition snapshot_zero_over_twice : MarketData :=
  {| md_bookmakers :=
       [ {| title := "BookA";
            bk_markets := [ {| m_key := "totals";
                               m_outcomes := [ mkOutcome "Over" 0;
                                               mkOutcome "Under" 1.95 ] |} ] |};
         {| title := "BookB";
            bk_markets := [ {| m_key := "totals";
                               m_outcomes := [ mkOutcome "Over" 0;
                                               mkOutcome "Under" 2 ] |} ] |} ] |}.

(** A game where the only bookmaker quotes Under at the price 0. *)
Definition game_zero_under : Game :=
  {| away_team := "Jets"; home_team := "Bills";
     bookmakers :=
       [ {| title := "BookA";
            bk_markets := [ {| m_key := "totals";
                               m_outcomes := [ mkOutcome "Over" 1.9;
                                               mkOutcome "Under" 0 ] |} ] |} ] |}.

(** ** Vocabulary of the specification for the ranking *)

(** The game has at least one market with an arbitrage result. *)
Definition has_arb (item : GameResults) : bool :=
  existsb (fun market => match arb market with Some _ => true | None => false end)
          (dict_values (markets item)).

(** [totalProb] of a market, from its two best prices. *)
Definition total_prob (market : MarketResult) : Q :=
  1 / price (best_a market) + 1 / price (best_b market).

(** The [totalProb] of the arbitrage-bearing markets of a game. *)
Definition arb_total_probs (item : GameResults) : list Q :=
  map total_prob
      (List.filter
         (fun market => match arb market with Some _ => true | None => false end)
         (dict_values (markets item))).

Fixpoint list_min (l : list Q) : option Q :=
  match l with
  | [] => None
  | x :: l' =>
      match list_min l' with
      | None => Some x
      | Some m => Some (Qmin x m)
      end
  end.

(** Minimum [totalProb] among the arbitrage-bearing markets of a game,
    when there is one. *)
Definition min_total_prob (item : GameResults) : option Q :=
  list_min (arb_total_probs item).

(** [x] may stand before [y] in the ranking of the games that have an
    arbitrage result. *)
Definition ranks_before (x y : GameResults) : Prop :=
  exists mx my,
    min_total_prob x = Some mx /\ min_total_prob y = Some my /\ mx <= my.

(** A market result as the scan builds it: its arbitrage result is what
    [calculate_stakes] answers on its two best prices, for some budget. *)
Definition consistent (market : MarketResult) : Prop :=
  exists total_budget,
    calculate_stakes total_budget (price (best_a market))
                     (price (best_b market)) = Ok (arb market).

Definition well_formed (item : GameResults) : Prop :=
  Forall consistent (dict_values (markets item)).

(** Order of two decorated elements that a sort on [lt] may leave. *)
Definition key_le {K A : Type} (lt : K -> K -> bool) (x y : K * A) : Prop :=
  lt (fst y) (fst x) = false.

(** A decorated element whose key is the key of a well-formed game. *)
Definition keyed (e : (Z * Q) * GameResults) : Prop :=
  well_formed (snd e) /\ sort_key (snd e) = Ok (fst e).

(** ** Sample game results *)

Definition sample_market (book_a book_b : string) (pa pb : Q) : MarketResult :=
  {| best_a := {| price := pa; book := book_a; name := "Over" |};
     best_b := {| price := pb; book := book_b; name := "Under" |};
     arb := match calculate_stakes 500 pa pb with
            | Ok r => r
            | Raise _ => None
            end |}.

Definition sample_game (label : string) (pa pb : Q) : GameResults :=
  {| game := label;
     markets := [ ("Game Total O/U"%string,
                   sample_market "BookA" "BookB" pa pb) ] |}.

(** Five ranked-to-be games: two without an opportunity, three with
    one, of total probability about 0.964, 0.952 and 0.964. *)
Definition sample_results : list GameResults :=
  [ sample_game "Jets @ Bills" 1.90 1.95;
    sample_game "Nets @ Heat" 2.10 2.05;
    sample_game "Mets @ Cubs" 1.85 1.95;
    sample_game "Kings @ Stars" 2.10 2.10;
    sample_game "Rams @ Lions" 2.05 2.10 ].

(** ** More sample feeds *)

(** [snapshot_two_books] with the two bookmakers in the other order. *)
Definition snapshot_two_books_swapped : MarketData :=
  {| md_bookmakers :=
       [ {| title := "BookB";
            bk_markets := [ {| m_key := "totals";
                               m_outcomes := [ mkOutcome "Under" 2.05;
                                               mkOutcome "Over" 1.9 ] |} ] |};
         {| title := "BookA";
            bk_markets := [ {| m_key := "totals";
                               m_outcomes := [ mkOutcome "Over" 1.9;
                                               mkOutcome "Under" 1.95 ] |} ] |} ] |}.

(** ** Vocabulary for the per-game scan *)

(** What one bookmaker contributes to the snapshot of a market: itself
    cut down to its first market entry with that key, or nothing. *)
Definition book_for (market_key : string) (book : Book) : list Book :=
  match find (fun m => String.eqb (m_key m) market_key) (bk_markets book) with
  | Some market_entry =>
      [ {| title := title book; bk_markets := [market_entry] |} ]
  | None => []
  end.

(** The bookmaker titled [t] of the game lists the outcome [o] in a
    market entry with the key [market_key]. *)
Definition quoted_in (g : Game) (market_key : string) (t : string)
    (o : Outcome) : Prop :=
  exists book m,
    book ∈ bookmakers g /\ title book = t /\
    m ∈ bk_markets book /\ m_key m = market_key /\ o ∈ m_outcomes m.

(** A market result of [prop_arb_scanner.py] without its arbitrage
    result, as [best_lines.py] stores it. *)
Definition strip_arb (e : MarketResult) : BestLines.MarketResult :=
  {| BestLines.best_a := best_a e; BestLines.best_b := best_b e |}.

Definition strip_arbs (d : list (string * MarketResult))
  : list (string * BestLines.MarketResult) :=
  map (fun kv => (fst kv, strip_arb (snd kv))) d.

(** A game with two bookmakers on the totals market and one on h2h. *)
Definition game_two_books : Game :=
  {| away_team := "Nets"; home_team := "Heat";
     bookmakers :=
       [ {| title := "BookA";
            bk_markets :=
              [ {| m_key := "h2h";
                   m_outcomes := [ mkOutcome "Heat" 1.5;
                                   mkOutcome "Nets" 2.6 ] |};
                {| m_key := "totals";
                   m_outcomes := [ mkOutcome "Over" 2.10;
                                   mkOutcome "Under" 1.80 ] |} ] |};
         {| title := "BookB";
            bk_markets :=
              [ {| m_key := "totals";
                   m_outcomes := [ mkOutcome "Over" 1.85;
                                   mkOutcome "Under" 2.05 ] |} ] |} ] |}.

(** ** Vocabulary for the collection of game results *)

(** The results of the games of a feed, in the order of the feed. *)
Definition scans_of (total_budget : Q) (gs : list Game)
    (rs : list GameResults) : Prop :=
  Forall2 (fun g r => scan_game_markets g FEATURED_MARKETS total_budget = Ok r)
          gs rs.

(** A feed of two games; no bookmaker quotes the totals market of the
    second one. *)
Definition feed_two_games : list Game :=
  [ game_two_books;
    {| away_team := "Mets"; home_team := "Cubs";
       bookmakers :=
         [ {| title := "BookA";
              bk_markets :=
                [ {| m_key := "h2h";
                     m_outcomes := [ mkOutcome "Cubs" 1.7;
                                     mkOutcome "Mets" 2.2 ] |} ] |} ] |} ].

(** * Files, network and console

    The remaining methods read and write the cache file, call the odds
    API and print.  They are embedded by explicit state passing on a
    [World]: the files (path to content), the requests sent so far and
    the lines printed so far.

    What lies outside the program is an [Env]: [json.load] and
    [json.dump] on a decoded feed, [requests.get] and [str.strip].  A
    parsable cache file and the body of a 200 response are lists of
    games, the shape the scanner assumes.  Opening an existing file
    succeeds.  Each [print] statement is one [Event] that holds the
    values the statement interpolates; the text formatting ([.upper()],
    [[:100]], [:.2f]) is not part of the model. *)

Inductive HttpOutcome : Type :=
| Response (status_code : Z) (json : list Game) (text : string)
| RequestException (e : string).

Record Env : Type := mkEnv {
  json_load : string -> option (list Game);
  json_dump : list Game -> string;
  (** the request number, the URL and the parameters *)
  requests_get : nat -> string -> list (string * string) -> HttpOutcome;
  strip : string -> string
}.

Inductive Event : Type :=
(* _get_api_response *)
| EqualsRule
| ApiRequestFailed (status_code : Z) (sport_key : string)
| ResponseBody (text : string)
| NetworkError (sport_key e : string)
(* fetch_or_load_data *)
| LoadingFromCache (sport_emoji sport_key sport_cache_file : string)
| CacheReadError (sport_cache_file : string)
| FetchingNew (sport_key : string)
| CacheSaved (sport_cache_file : string)
(* run_scanner *)
| ScannerStopped (sport_key : string)
| ResultsBanner (sport_emoji sport_key : string) (total_budget : Q)
| BestOddsBanner (sport_emoji sport_key : string)
| DashRuleAfterBlank
| GameLine (sport_emoji game : string)
| DashRule
| MarketLine (market_name : string)
| BestLine (name book : string) (price : Q)
| ArbFoundLine
| StakeLine (book name : string) (stake : Q)
| ProfitLine (profit roi : Q)
| NoGames (sport_key : string)
| NoArbs (sport_key : string)
(* load_api_key *)
| KeyFileNotFound (filename : string)
| KeyFileHint
| KeyFileEmpty (filename : string)
(* __main__ *)
| StarRuleAfterBlank
| StartingScan (emoji sport_alias api_key : string)
| StarRule
| UnknownSport (sport_alias : string).

Record World : Type := mkWorld {
  files : gmap string string;
  requests : list (string * list (string * string));
  stdout : list Event
}.

Definition print (evs : list Event) (w : World) : World :=
  {| files := files w; requests := requests w; stdout := stdout w ++ evs |}.

Definition write_file (path content : string) (w : World) : World :=
  {| files := <[ path := content ]> (files w);
     requests := requests w; stdout := stdout w |}.

Definition log_request (url : string) (params : list (string * string))
    (w : World) : World :=
  {| files := files w; requests := requests w ++ [(url, params)];
     stdout := stdout w |}.

(** [d.update(other)] *)
Definition dict_update {V : Type} (d other : list (string * V))
  : list (string * V) :=
  fold_left (fun d kv => dict_set (fst kv) (snd kv) d) other d.

Definition CACHE_FILE : string := "arb_data_cache.json".

(** [SPORT_CONFIG] of prop_arb_scanner.py. *)
Definition SPORT_CONFIG : list (string * (string * string)) :=
  [ ("nfl", ("americanfootball_nfl", "🏈"));
    ("nba", ("basketball_nba", "🏀"));
    ("mlb", ("baseball_mlb", "⚾️"));
    ("nhl", ("icehockey_nhl", "🏒"));
    ("ncaaf", ("americanfootball_ncaaf", "📣"));
    ("ncaab", ("basketball_ncaab", "📣"));
    ("epl", ("soccer_epl", "⚽️")) ]%string.

Definition SUPPORTED_SPORTS : list string := map fst SPORT_CONFIG.

(** The attributes [__init__] sets. *)
Record Scanner : Type := mkScanner {
  api_key : string;
  sport_key : string;
  sport_emoji : string
}.

Definition base_odds_url (self : Scanner) : string :=
  ("https://api.the-odds-api.com/v4/sports/" ++ sport_key self ++ "/odds")%string.

(** [_get_api_response] (prop_arb_scanner.py, lines 45-64; best_lines.py,
    lines 42-60) *)
Definition get_api_response (env : Env) (self : Scanner) (url : string)
    (params : list (string * string)) (w : World)
  : option (list Game) * World :=
  let params :=
    dict_update params [ ("apiKey", api_key self); ("regions", "us");
                         ("oddsFormat", "decimal") ]%string in
  let response := requests_get env (length (requests w)) url params in
  let w := log_request url params w in
  match response with
  | Response status_code json text =>
      if Z.eqb status_code 200 then (Some json, w)
      else (None, print [ EqualsRule;
                          ApiRequestFailed status_code (sport_key self);
                          ResponseBody text;
                          EqualsRule ] w)
  | RequestException e => (None, print [ NetworkError (sport_key self) e ] w)
  end.

Definition sport_cache_file (self : Scanner) : string :=
  (sport_key self ++ "_" ++ CACHE_FILE)%string.

(** Lines 72-79 of [fetch_or_load_data]: the cached data when it is
    returned, else the value of [force_new_call] the rest runs with. *)
Definition try_cache (env : Env) (self : Scanner) (force_new_call : bool)
    (w : World) : (list Game + bool) * World :=
  match files w !! sport_cache_file self with
  | Some content =>
      if negb force_new_call then
        let w := print [ LoadingFromCache (sport_emoji self) (sport_key self)
                                          (sport_cache_file self) ] w in
        match json_load env content with
        | Some data => (inl data, w)
        | None => (inr true, print [ CacheReadError (sport_cache_file self) ] w)
        end
      else (inr force_new_call, w)
  | None => (inr force_new_call, w)
  end.

(** Lines 82-93 of [fetch_or_load_data]: the call of the API and the
    writing of the cache file. *)
Definition fetch_new (env : Env) (featured : list (string * string))
    (self : Scanner) (w : World) : option (list Game) * World :=
  let w := print [ FetchingNew (sport_key self) ] w in
  let params :=
    [ ("markets", String.concat "," (map fst featured)) ]%string in
  let '(data, w) :=
    get_api_response env self (base_odds_url self) params w in
  match data with
  | Some (g :: gs) =>
      let w := write_file (sport_cache_file self)
                          (json_dump env (g :: gs)) w in
      (data, print [ CacheSaved (sport_cache_file self) ] w)
  | _ => (data, w)
  end.

(** [fetch_or_load_data] (prop_arb_scanner.py, lines 66-95; best_lines.py,
    lines 62-88), for the [FEATURED_MARKETS] of its file. *)
Definition fetch_or_load_data (env : Env) (featured : list (string * string))
    (self : Scanner) (force_new_call : bool) (w : World)
  : option (list Game) * World :=
  match try_cache env self force_new_call w with
  | (inl data, w) => (Some data, w)
  | (inr force_new_call, w) =>
      if force_new_call then fetch_new env featured self w
      else (None, w)
  end.

(** The parameters of the request [fetch_or_load_data] sends. *)
Definition request_params (featured : list (string * string))
    (self : Scanner) : list (string * string) :=
  [ ("markets", String.concat "," (map fst featured));
    ("apiKey", api_key self);
    ("regions", "us");
    ("oddsFormat", "decimal") ]%string.

(** The cache file of the sport is there and [json.load] rejects it. *)
Definition cache_unreadable (env : Env) (self : Scanner) (w : World) : Prop :=
  exists content,
    files w !! sport_cache_file self = Some content /\
    json_load env content = None.

(** The command-line arguments after parsing. *)
Record Args : Type := mkArgs {
  sports : list string;
  newcall : bool;
  arb_only : bool
}.

(** ** The report of [ArbScanner.run_scanner] (lines 215-254) *)

(** Lines 230-249: one market of a game; the state is the lines printed
    by the loop so far and [found_any_arb]. *)
Definition report_market (args : Args) (st : list Event * bool)
    (item : string * MarketResult) : list Event * bool :=
  let '(out, found_any_arb) := st in
  let '(market_name, data) := item in
  if arb_only args && (match arb data with Some _ => false | None => true end)
  then st
  else
    let out :=
      out ++ [ MarketLine market_name;
               BestLine (name (best_a data)) (book (best_a data))
                        (price (best_a data));
               BestLine (name (best_b data)) (book (best_b data))
                        (price (best_b data)) ] in
    match arb data with
    | Some a =>
        (out ++ [ ArbFoundLine;
                  StakeLine (book (best_a data)) (name (best_a data))
                            (stake_a a);
                  StakeLine (book (best_b data)) (name (best_b data))
                            (stake_b a);
                  ProfitLine (profit a) (roi a) ], true)
    | None => (out, true)
    end.

(** Lines 220-249: one game. *)
Definition report_game (self : Scanner) (args : Args)
    (st : list Event * bool) (game_result : GameResults)
  : list Event * bool :=
  let game_has_arb :=
    existsb (fun data => match arb data with Some _ => true | None => false end)
            (dict_values (markets game_result)) in
  if arb_only args && negb game_has_arb then st
  else
    let '(out, found_any_arb) := st in
    fold_left (report_market args) (markets game_result)
              (out ++ [ DashRuleAfterBlank;
                        GameLine (sport_emoji self) (game game_result);
                        DashRule ], found_any_arb).

(** Lines 216-254. *)
Definition report (self : Scanner) (args : Args) (total_budget : Q)
    (all_game_results : list GameResults) : list Event :=
  let '(out, found_any_arb) :=
    fold_left (report_game self args) all_game_results
              ([ ResultsBanner (sport_emoji self) (sport_key self)
                               total_budget ], false) in
  match all_game_results with
  | [] => out ++ [ NoGames (sport_key self) ]
  | _ :: _ =>
      if arb_only args && negb found_any_arb
      then out ++ [ NoArbs (sport_key self) ]
      else out
  end.


(** ** [BestOddsFinder.run_scanner] (best_lines.py, lines 155-185)

    The entry point of best_lines.py (lines 201-247) is not embedded:
    its last branch still holds the markers of an unresolved merge. *)



(** ** The entry point of prop_arb_scanner.py (lines 258-320) *)






(** ** A sample environment *)

(** One parsable file content, the dump of every feed; the API answers
    every request with status 200 and a feed of one game. *)
Definition sample_env : Env :=
  {| json_load := fun content =>
       if String.eqb content "[feed]" then Some feed_two_games else None;
     json_dump := fun _ => "[feed]"%string;
     requests_get := fun _ _ _ => Response 200 feed_two_games "";
     strip := fun s => s |}.

Definition sample_scanner : Scanner :=
  {| api_key := "k3y"; sport_key := "basketball_nba"; sport_emoji := "" |}.

Definition empty_world : World :=
  {| files := ∅; requests := []; stdout := [] |}.

(** A world with the key file and an unreadable cache file. *)
Definition world_with_key : World :=
  {| files := <[ "my_key.txt"%string := "k3y"%string ]>
              (<[ "basketball_nba_arb_data_cache.json"%string
                  := "{oops"%string ]> ∅);
     requests := []; stdout := [] |}.

(** ** The report, said as a list

    What [report] prints, without the loops and the flag: the banner,
    then for each game that is shown its three header lines and the
    lines of each of its markets that is shown, then the closing line. *)

Definition shown_market (args : Args) (item : string * MarketResult) : bool :=
  negb (arb_only args)
  || match arb (snd item) with Some _ => true | None => false end.

Definition shown_game (args : Args) (game_result : GameResults) : bool :=
  negb (arb_only args) || has_arb game_result.

Definition market_lines (item : string * MarketResult) : list Event :=
  let data := snd item in
  [ MarketLine (fst item);
    BestLine (name (best_a data)) (book (best_a data)) (price (best_a data));
    BestLine (name (best_b data)) (book (best_b data)) (price (best_b data)) ]
  ++ match arb data with
     | Some a =>
         [ ArbFoundLine;
           StakeLine (book (best_a data)) (name (best_a data)) (stake_a a);
           StakeLine (book (best_b data)) (name (best_b data)) (stake_b a);
           ProfitLine (profit a) (roi a) ]
     | None => []
     end.

Definition game_lines (self : Scanner) (args : Args)
    (game_result : GameResults) : list Event :=
  [ DashRuleAfterBlank;
    GameLine (sport_emoji self) (game game_result);
    DashRule ]
  ++ flat_map market_lines
       (List.filter (shown_market args) (markets game_result)).

Definition closing_lines (self : Scanner) (args : Args)
    (all_game_results : list GameResults) : list Event :=
  match all_game_results with
  | [] => [ NoGames (sport_key self) ]
  | _ :: _ =>
      if arb_only args && forallb (fun g => negb (has_arb g)) all_game_results
      then [ NoArbs (sport_key self) ]
      else []
  end.

Definition report_as_list (self : Scanner) (args : Args) (total_budget : Q)
    (all_game_results : list GameResults) : list Event :=
  [ ResultsBanner (sport_emoji self) (sport_key self) total_budget ]
  ++ flat_map (game_lines self args)
       (List.filter (shown_game args) all_game_results)
  ++ closing_lines self args all_game_results.

(** Some market of some game gets printed. *)
Definition prints_a_market (args : Args) (gs : list GameResults) : bool :=
  existsb (fun g => shown_game args g
                    && existsb (shown_market args) (markets g)) gs.

(** * Properties of the arithmetic *)

Section Arithmetic.

Lemma Qle_bool_false (x y : Q) : Qle_bool x y = false <-> y < x.
Proof.
  split; intros H.
  - apply Qnot_le_lt. intros Hle. apply Qle_bool_iff in Hle. congruence.
  - destruct (Qle_bool x y) eqn:E; [|reflexivity].
    apply Qle_bool_iff in E. lra.
Qed.

Lemma truediv_ok (x y : Q) : ~ y == 0 -> truediv x y = Ok (x / y).
Proof.
  intros H. unfold truediv.
  destruct (Qeq_bool y 0) eqn:E; [|reflexivity].
  apply Qeq_bool_iff in E. contradiction.
Qed.

Lemma truediv_zero (x y : Q) : y == 0 -> truediv x y = Raise ZeroDivisionError.
Proof.
  intros H. unfold truediv. apply Qeq_bool_iff in H. now rewrite H.
Qed.


Lemma round_half_even_nonneg (y : Q) : 0 <= y -> (0 <= round_half_even y)%Z.
Proof.
  intros Hy. unfold round_half_even.
  assert (0 <= Qfloor y)%Z as Hn.
  { change 0%Z with (Qfloor 0). now apply Qfloor_resp_le. }
  destruct (Qcompare _ _); [destruct (Z.even _)| |]; lia.
Qed.

Lemma round2_unfold (x : Q) :
  round x 2 = inject_Z (round_half_even (x * 100)) / 100.
Proof. reflexivity. Qed.


Lemma round2_nonneg (x : Q) : 0 <= x -> 0 <= round x 2.
Proof.
  intros Hx. rewrite round2_unfold.
  assert (0 <= round_half_even (x * 100))%Z as Hk
    by (apply round_half_even_nonneg; lra).
  assert (0 <= inject_Z (round_half_even (x * 100))) as Hq.
  { change 0 with (inject_Z 0). now rewrite <- Zle_Qle. }
  set (k := inject_Z _) in *.
  assert (k / 100 == k * (1 # 100)) as -> by (field).
  lra.
Qed.

End Arithmetic.

(** * Properties of [calculate_stakes] *)

Section CalculateStakes.

Variables total_budget odds_a odds_b : Q.

Lemma calculate_stakes_low_odds :
  odds_a <= 1 \/ odds_b <= 1 ->
  calculate_stakes total_budget odds_a odds_b = Ok None.
Proof.
  intros H. unfold calculate_stakes.
  assert (Qle_bool odds_a 1 || Qle_bool odds_b 1 = true) as ->; [|reflexivity].
  apply orb_true_iff. destruct H as [H|H]; [left|right]; now apply Qle_bool_iff.
Qed.

Section ValidOdds.

Hypothesis Ha : 1 < odds_a.
Hypothesis Hb : 1 < odds_b.

Let prob_a := 1 / odds_a.
Let prob_b := 1 / odds_b.
Let total_prob := prob_a + prob_b.

Lemma prob_a_pos : 0 < prob_a.
Proof.
  unfold prob_a. unfold Qdiv. rewrite Qmult_1_l.
  apply Qinv_lt_0_compat. lra.
Qed.

Lemma prob_b_pos : 0 < prob_b.
Proof.
  unfold prob_b. unfold Qdiv. rewrite Qmult_1_l.
  apply Qinv_lt_0_compat. lra.
Qed.

Lemma total_prob_pos : 0 < total_prob.
Proof. unfold total_prob. pose proof prob_a_pos. pose proof prob_b_pos. lra. Qed.



Lemma calculate_stakes_valid_odds :
  calculate_stakes total_budget odds_a odds_b =
  if Qle_bool 1 total_prob then Ok None
  else
    stake_a ← truediv (total_budget * prob_a) total_prob;
    stake_b ← truediv (total_budget * prob_b) total_prob;
    q ← truediv (stake_a * odds_a - total_budget) total_budget;
    Ok (Some {| stake_a := round stake_a 2;
                stake_b := round stake_b 2;
                profit := round (stake_a * odds_a - total_budget) 2;
                roi := round (q * 100) 2 |}).
Proof.
  unfold calculate_stakes.
  assert (Qle_bool odds_a 1 = false) as -> by (apply Qle_bool_false; lra).
  assert (Qle_bool odds_b 1 = false) as -> by (apply Qle_bool_false; lra).
  cbn [orb].
  rewrite (truediv_ok 1 odds_a) by lra. cbn [mbind exc_bind].
  rewrite (truediv_ok 1 odds_b) by lra. cbn [mbind exc_bind].
  reflexivity.
Qed.


Lemma calculate_stakes_high_total :
  1 <= total_prob -> calculate_stakes total_budget odds_a odds_b = Ok None.
Proof.
  intros H. rewrite calculate_stakes_valid_odds.
  apply Qle_bool_iff in H. now rewrite H.
Qed.

Section Opportunity.

Hypothesis Harb : total_prob < 1.

Let raw_a := total_budget * prob_a / total_prob.
Let raw_b := total_budget * prob_b / total_prob.
Let raw_profit := raw_a * odds_a - total_budget.
Let raw_roi := raw_profit / total_budget * 100.


Lemma calculate_stakes_opportunity :
  ~ total_budget == 0 ->
  calculate_stakes total_budget odds_a odds_b =
  Ok (Some {| stake_a := round raw_a 2;
              stake_b := round raw_b 2;
              profit := round raw_profit 2;
              roi := round raw_roi 2 |}).
Proof.
  intros Hbud. rewrite calculate_stakes_valid_odds.
  assert (Qle_bool 1 total_prob = false) as -> by (now apply Qle_bool_false).
  pose proof total_prob_pos.
  rewrite !truediv_ok by lra. cbn [mbind exc_bind].
  rewrite truediv_ok by assumption. reflexivity.
Qed.

Lemma calculate_stakes_zero_budget :
  total_budget == 0 ->
  calculate_stakes total_budget odds_a odds_b = Raise ZeroDivisionError.
Proof.
  intros Hbud. rewrite calculate_stakes_valid_odds.
  assert (Qle_bool 1 total_prob = false) as -> by (now apply Qle_bool_false).
  pose proof total_prob_pos.
  rewrite !truediv_ok by lra. cbn [mbind exc_bind].
  rewrite truediv_zero by assumption. reflexivity.
Qed.





End Opportunity.
End ValidOdds.
End CalculateStakes.

(** [raw_stakes] is the first part of [calculate_stakes]: the function
    is [raw_stakes] followed by lines 112-120. *)
Lemma calculate_stakes_from_raw_stakes (total_budget odds_a odds_b : Q) :
  calculate_stakes total_budget odds_a odds_b =
  (s ← raw_stakes total_budget odds_a odds_b;
   match s with
   | None => Ok None
   | Some (sa, sb) =>
       q ← truediv (sa * odds_a - total_budget) total_budget;
       Ok (Some {| stake_a := round sa 2;
                   stake_b := round sb 2;
                   profit := round (sa * odds_a - total_budget) 2;
                   roi := round (q * 100) 2 |})
   end).
Proof.
  unfold calculate_stakes, raw_stakes.
  destruct (Qle_bool odds_a 1 || Qle_bool odds_b 1); [reflexivity|].
  destruct (truediv 1 odds_a) as [e|prob_a]; [reflexivity|].
  cbn [mbind exc_bind].
  destruct (truediv 1 odds_b) as [e|prob_b]; [reflexivity|].
  cbn [mbind exc_bind].
  destruct (Qle_bool 1 (prob_a + prob_b)); [reflexivity|].
  destruct (truediv (total_budget * prob_a) (prob_a + prob_b)) as [e|sa];
    [reflexivity|].
  cbn [mbind exc_bind].
  destruct (truediv (total_budget * prob_b) (prob_a + prob_b)) as [e|sb];
    reflexivity.
Qed.

(** * The arbitrage calculator: what the specification states *)

Lemma opportunity_iff (odds_a odds_b : Q) :
  ~ no_opportunity odds_a odds_b <->
  1 < odds_a /\ 1 < odds_b /\ 1 / odds_a + 1 / odds_b < 1.
Proof.
  unfold no_opportunity. split.
  - intros H. repeat split; apply Qnot_le_lt; intros Hle; apply H; auto.
  - intros (Ha & Hb & Ht) [H|[H|H]]; lra.
Qed.

Lemma calculate_stakes_no_opportunity (total_budget odds_a odds_b : Q) :
  no_opportunity odds_a odds_b ->
  calculate_stakes total_budget odds_a odds_b = Ok None.
Proof.
  intros [H|[H|H]]; try (apply calculate_stakes_low_odds; auto; fail).
  destruct (Qlt_le_dec 1 odds_a) as [Ha|Ha];
    [|apply calculate_stakes_low_odds; auto].
  destruct (Qlt_le_dec 1 odds_b) as [Hb|Hb];
    [|apply calculate_stakes_low_odds; auto].
  now apply calculate_stakes_high_total.
Qed.


Lemma calculate_stakes_some_inv (total_budget odds_a odds_b : Q) r :
  calculate_stakes total_budget odds_a odds_b = Ok (Some r) ->
  1 < odds_a /\ 1 < odds_b /\ 1 / odds_a + 1 / odds_b < 1.
Proof.
  intros Hsome. apply opportunity_iff. intros Hno.
  rewrite calculate_stakes_no_opportunity in Hsome by assumption. discriminate.
Qed.











(** C4 (as amended).  At prices 2.10 and 2.05 with budget 500 the
    implied probabilities sum to 0.9640 (to four decimals), below 1, and
    [calculate_stakes] returns stake_a = 246.99, stake_b = 253.01,
    profit = 18.67 and roi = 3.73; both payouts are within a cent of
    518.67. *)
Theorem calculate_stakes_scenario :
  1 / 2.10 + 1 / 2.05 < 1 /\
  round (1 / 2.10 + 1 / 2.05) 4 == 0.9640 /\
  exists r, calculate_stakes 500 2.10 2.05 = Ok (Some r) /\
    stake_a r == 246.99 /\ stake_b r == 253.01 /\
    profit r == 18.67 /\ roi r == 3.73 /\
    Qabs (stake_a r * 2.10 - 518.67) <= 0.01 /\
    Qabs (stake_b r * 2.05 - 518.67) <= 0.01.
Proof.
  split; [reflexivity|]. split; [reflexivity|].
  eexists. split; [vm_compute; reflexivity|].
  cbn [stake_a stake_b profit roi].
  repeat (split; [reflexivity|]).
  split; apply Qabs_Qle_condition; split; vm_compute; discriminate.
Qed.

(** C4 as stated fails: the stakes returned at 2.10, 2.05, 500 are more
    than 3 away from the stated 243.90 and 256.10, the profit more than
    6 away from 12.2 and the roi more than 1 away from 2.44. *)
Lemma calculate_stakes_scenario_not_as_stated :
  exists r, calculate_stakes 500 2.10 2.05 = Ok (Some r) /\
    3 < Qabs (stake_a r - 243.90) /\
    3 < Qabs (stake_b r - 256.10) /\
    6 < Qabs (profit r - 12.2) /\
    1 < Qabs (roi r - 2.44).
Proof.
  eexists. split; [vm_compute; reflexivity|].
  cbn [stake_a stake_b profit roi].
  repeat split; vm_compute; reflexivity.
Qed.






(** * The price aggregator *)

Section Flatten.

Lemma fold_left_flat_map {A B S : Type} (f : S -> B -> S) (g : A -> list B)
    (l : list A) (s : S) :
  fold_left f (flat_map g l) s =
  fold_left (fun s x => fold_left f (g x) s) l s.
Proof.
  revert s. induction l as [|x l IH]; intros s; [reflexivity|].
  cbn [flat_map fold_left]. rewrite fold_left_app. apply IH.
Qed.

Lemma fold_left_map {A B S : Type} (f : S -> B -> S) (h : A -> B)
    (l : list A) (s : S) :
  fold_left f (map h l) s = fold_left (fun s x => f s (h x)) l s.
Proof.
  revert s. induction l as [|x l IH]; intros s; [reflexivity|].
  cbn [map fold_left]. apply IH.
Qed.

Lemma fold_left_ext_eq {A S : Type} (f g : S -> A -> S) (l : list A) (s : S) :
  (forall s x, f s x = g s x) -> fold_left f l s = fold_left g l s.
Proof.
  intros H. revert s. induction l as [|x l IH]; intros s; [reflexivity|].
  cbn [fold_left]. rewrite H. apply IH.
Qed.

(** The second triple loop is one pass over the quotes. *)
Lemma scan_best_quotes (name_a name_b : string) (md : MarketData)
    (best : Best * Best) :
  scan_best name_a name_b md best =
  fold_left (update_quote name_a name_b) (quotes md) best.
Proof.
  unfold scan_best, quotes.
  rewrite fold_left_flat_map. apply fold_left_ext_eq. intros s book.
  rewrite fold_left_flat_map. apply fold_left_ext_eq. intros s' market.
  rewrite fold_left_map. apply fold_left_ext_eq. intros s'' o.
  reflexivity.
Qed.

Lemma fold_left_add_names (l : list (string * Outcome)) (names : gset string) :
  fold_left (fun names q => {[ o_name (snd q) ]} ∪ names) l names =
  list_to_set (map (fun q => o_name (snd q)) l) ∪ names.
Proof.
  revert names. induction l as [|q l IH]; intros names.
  - cbn. now rewrite (left_id_L ∅ (∪)).
  - cbn [fold_left map]. rewrite IH. cbn [list_to_set].
    rewrite (assoc_L (∪)).
    now rewrite (comm_L (∪) (list_to_set _) {[ o_name (snd q) ]}).
Qed.

(** The first triple loop collects exactly the distinct labels. *)
Lemma outcome_names_distinct_labels (md : MarketData) :
  outcome_names md = distinct_labels md.
Proof.
  unfold distinct_labels. 
  rewrite <- (right_id_L ∅ (∪) (list_to_set _)).
  rewrite <- fold_left_add_names.
  unfold outcome_names, quotes.
  rewrite fold_left_flat_map. apply fold_left_ext_eq. intros s book.
  rewrite fold_left_flat_map. apply fold_left_ext_eq. intros s' market.
  rewrite fold_left_map. reflexivity.
Qed.

End Flatten.

Section ScanInvariant.

Variables name_a name_b : string.
Hypothesis Hdistinct : name_a <> name_b.

(** With two different labels the [if]/[elif] of the loop body treats
    the two bests independently. *)
Lemma update_quote_split (ba bb : Best) (q : string * Outcome) :
  update_quote name_a name_b (ba, bb) q =
  (step_label name_a ba q, step_label name_b bb q).
Proof.
  unfold update_quote, update_best, step_label. cbn [title].
  destruct (String.eqb_spec (o_name (snd q)) name_a) as [Ea|Ea];
    destruct (String.eqb_spec (o_name (snd q)) name_b) as [Eb|Eb];
    cbn [andb]; try congruence.
  - destruct (negb _); reflexivity.
  - destruct (negb _); reflexivity.
Qed.

Lemma fold_update_quote_split (qs : list (string * Outcome)) (ba bb : Best) :
  fold_left (update_quote name_a name_b) qs (ba, bb) =
  (fold_left (step_label name_a) qs ba, fold_left (step_label name_b) qs bb).
Proof.
  revert ba bb. induction qs as [|q qs IH]; intros ba bb; [reflexivity|].
  cbn [fold_left]. rewrite update_quote_split. apply IH.
Qed.

End ScanInvariant.

Section BestFor.

Variable label : string.

Lemma first_seen_max_price_bound qs b t o :
  first_seen_max qs label b -> (t, o) ∈ qs -> o_name o = label ->
  o_price o <= price b.
Proof.
  intros (l1 & t0 & o0 & l2 & -> & Hn & -> & Hbefore & Hafter) Hin Hlab.
  cbn [price].
  apply elem_of_app in Hin as [Hin|Hin].
  - apply Qlt_le_weak. eapply Hbefore; eassumption.
  - apply elem_of_cons in Hin as [Heq|Hin].
    + injection Heq as _ ->. apply Qle_refl.
    + eapply Hafter; eassumption.
Qed.

Lemma best_for_price_bound qs b t o :
  best_for qs label b -> (t, o) ∈ qs -> o_name o = label ->
  o_price o <= price b.
Proof.
  intros [[-> Hall]|[Hmax _]] Hin Hlab.
  - cbn [zero_sentinel price]. eapply Hall; eassumption.
  - eapply first_seen_max_price_bound; eassumption.
Qed.

Lemma best_for_nil : best_for [] label zero_sentinel.
Proof.
  left. split; [reflexivity|]. intros t o Hin. now apply elem_of_nil in Hin.
Qed.

Lemma best_for_step qs b q :
  best_for qs label b -> best_for (qs ++ [q]) label (step_label label b q).
Proof.
  intros Hb. destruct q as [t o]. unfold step_label. cbn [fst snd].
  destruct (String.eqb_spec (o_name o) label) as [Hlab|Hlab]; cbn [andb].
  - destruct (Qle_bool (o_price o) (price b)) eqn:Hcmp; cbn [negb].
    + (* not dearer than the best so far: the best stays *)
      apply Qle_bool_iff in Hcmp.
      destruct Hb as [[-> Hall]|[Hmax Hpos]].
      * left. split; [reflexivity|]. intros t' o' Hin Hlab'.
        apply elem_of_app in Hin as [Hin|Hin]; [eauto|].
        apply list_elem_of_singleton in Hin. injection Hin as -> ->.
        exact Hcmp.
      * right. split; [|exact Hpos].
        destruct Hmax as (l1 & t0 & o0 & l2 & -> & Hn & -> & Hbefore & Hafter).
        exists l1, t0, o0, (l2 ++ [(t, o)]).
        split; [now rewrite <- app_assoc|].
        split; [exact Hn|]. split; [reflexivity|]. split; [exact Hbefore|].
        intros t' o' Hin Hlab'.
        apply elem_of_app in Hin as [Hin|Hin]; [eauto|].
        apply list_elem_of_singleton in Hin. injection Hin as -> ->.
        exact Hcmp.
    + (* strictly dearer: this quote becomes the best *)
      apply Qle_bool_false in Hcmp.
      assert (forall t' o', (t', o') ∈ qs -> o_name o' = label ->
                            o_price o' < o_price o) as Hbefore.
      { intros t' o' Hin Hlab'.
        pose proof (best_for_price_bound qs b t' o' Hb Hin Hlab'). lra. }
      right. split.
      * exists qs, t, o, []. split; [reflexivity|]. split; [exact Hlab|].
        split; [reflexivity|]. split; [exact Hbefore|].
        intros t' o' Hin. now apply elem_of_nil in Hin.
      * cbn [price].
        destruct Hb as [[-> _]|[_ Hpos]]; [exact Hcmp|lra].
  - (* another label: nothing changes *)
    destruct Hb as [[-> Hall]|[Hmax Hpos]].
    + left. split; [reflexivity|]. intros t' o' Hin Hlab'.
      apply elem_of_app in Hin as [Hin|Hin]; [eauto|].
      apply list_elem_of_singleton in Hin. injection Hin as -> ->.
      contradiction.
    + right. split; [|exact Hpos].
      destruct Hmax as (l1 & t0 & o0 & l2 & -> & Hn & -> & Hbefore & Hafter).
      exists l1, t0, o0, (l2 ++ [(t, o)]).
      split; [now rewrite <- app_assoc|].
      split; [exact Hn|]. split; [reflexivity|]. split; [exact Hbefore|].
      intros t' o' Hin Hlab'.
      apply elem_of_app in Hin as [Hin|Hin]; [eauto|].
      apply list_elem_of_singleton in Hin. injection Hin as -> ->.
      contradiction.
Qed.

Lemma best_for_fold pre qs b :
  best_for pre label b ->
  best_for (pre ++ qs) label (fold_left (step_label label) qs b).
Proof.
  revert pre b. induction qs as [|q qs IH]; intros pre b Hb.
  - now rewrite app_nil_r.
  - cbn [fold_left].
    replace (pre ++ q :: qs) with ((pre ++ [q]) ++ qs)
      by (now rewrite <- app_assoc).
    apply IH. now apply best_for_step.
Qed.

Lemma best_for_scan qs :
  best_for qs label (fold_left (step_label label) qs zero_sentinel).
Proof. apply (best_for_fold [] qs). apply best_for_nil. Qed.

(** A quote above 0 rules the sentinel out. *)
Lemma best_for_positive qs b :
  best_for qs label b -> has_positive_quote qs label ->
  first_seen_max qs label b /\ 0 < price b.
Proof.
  intros [[-> Hall]|H] (t & o & Hin & Hlab & Hpos); [|exact H].
  pose proof (Hall t o Hin Hlab). lra.
Qed.

Lemma best_for_no_positive qs b :
  best_for qs label b -> ~ has_positive_quote qs label -> b = zero_sentinel.
Proof.
  intros [[-> _]|[Hmax Hpos]] Hnone; [reflexivity|].
  exfalso. apply Hnone.
  destruct Hmax as (l1 & t & o & l2 & -> & Hn & -> & _).
  exists t, o. split; [|split; assumption].
  apply elem_of_app. right. apply list_elem_of_here.
Qed.

End BestFor.

Section FindBestOdds.

#[local] Instance str_le_total : Total str_le.
Proof. intros s1 s2. apply leb_total. Qed.

Lemma str_le_neq_ltb (s1 s2 : string) :
  str_le s1 s2 -> s1 <> s2 -> String.ltb s1 s2 = true.
Proof.
  unfold str_le, String.leb, String.ltb. intros Hle Hne.
  destruct (String.compare s1 s2) eqn:E; try reflexivity; try discriminate.
  apply compare_eq_iff in E. contradiction.
Qed.

Lemma ltb_neq (s1 s2 : string) : String.ltb s1 s2 = true -> s1 <> s2.
Proof.
  unfold String.ltb. intros H ->.
  assert (String.compare s2 s2 = Eq) as E.
  { pose proof (compare_antisym s2 s2) as Ha.
    destruct (String.compare s2 s2); [reflexivity|discriminate..]. }
  rewrite E in H. discriminate.
Qed.

(** [sorted] on a set of two names gives them in strictly increasing
    order. *)
Lemma sorted_two_names (X : gset string) :
  size X = 2%nat ->
  exists la lb, sorted (elements X) = [la; lb] /\
                String.ltb la lb = true /\ X = {[ la; lb ]}.
Proof.
  intros Hsize.
  assert (length (elements X) = 2%nat) as Hlen by exact Hsize.
  pose proof (merge_sort_Permutation str_le (elements X)) as Hperm.
  pose proof (Sorted_merge_sort str_le (elements X)) as Hsorted.
  fold (sorted (elements X)) in Hperm, Hsorted.
  pose proof (Permutation_length Hperm) as Hlen'. rewrite Hlen in Hlen'.
  destruct (sorted (elements X)) as [|la [|lb [|? ?]]]; try discriminate.
  exists la, lb. split; [reflexivity|].
  assert (la <> lb) as Hne.
  { pose proof (NoDup_elements X) as Hnd. rewrite <- Hperm in Hnd.
    apply NoDup_cons in Hnd as [Hnotin _]. intros ->.
    apply Hnotin. apply list_elem_of_here. }
  split.
  - apply str_le_neq_ltb; [|exact Hne].
    apply Sorted_inv in Hsorted as [_ Hhd]. now inversion Hhd.
  - rewrite <- (list_to_set_elements_L X). rewrite <- Hperm.
    cbn [list_to_set]. now rewrite (right_id_L ∅ (∪)).
Qed.

Lemma find_best_odds_not_two (md : MarketData) :
  size (distinct_labels md) <> 2%nat -> find_best_odds md = Ok (None, None).
Proof.
  intros Hsize. unfold find_best_odds.
  rewrite outcome_names_distinct_labels.
  now rewrite bool_decide_eq_true_2.
Qed.

(** With exactly two labels [find_best_odds] returns the pair the scan
    leaves, for the two labels in increasing order. *)
Lemma find_best_odds_two (md : MarketData) :
  size (distinct_labels md) = 2%nat ->
  exists la lb,
    distinct_labels md = {[ la; lb ]} /\ String.ltb la lb = true /\
    find_best_odds md =
      Ok (Some (fold_left (step_label la) (quotes md) zero_sentinel),
          Some (fold_left (step_label lb) (quotes md) zero_sentinel)).
Proof.
  intros Hsize.
  destruct (sorted_two_names _ Hsize) as (la & lb & Hsorted & Hlt & Hset).
  exists la, lb. split; [exact Hset|]. split; [exact Hlt|].
  unfold find_best_odds. rewrite outcome_names_distinct_labels.
  rewrite bool_decide_eq_false_2 by (intros H; now apply H).
  rewrite Hsorted. rewrite scan_best_quotes.
  fold zero_sentinel.
  rewrite fold_update_quote_split by (now apply ltb_neq).
  reflexivity.
Qed.

End FindBestOdds.

(** C6 (as amended).  [find_best_odds] returns the absence marker
    exactly when the number of distinct outcome labels across all quotes
    is not 2.  When it is 2, it returns two records, the first for the
    smaller label and the second for the greater one: a record carries
    its label when some quote with that label has a price above 0, and
    is otherwise the initial record (price 0, empty bookmaker, empty
    label). *)
Theorem find_best_odds_labels (md : MarketData) :
  (find_best_odds md = Ok (None, None) <->
   size (distinct_labels md) <> 2%nat) /\
  (size (distinct_labels md) = 2%nat ->
   exists la lb ba bb,
     distinct_labels md = {[ la; lb ]} /\ String.ltb la lb = true /\
     find_best_odds md = Ok (Some ba, Some bb) /\
     (has_positive_quote (quotes md) la -> name ba = la) /\
     (has_positive_quote (quotes md) lb -> name bb = lb) /\
     (~ has_positive_quote (quotes md) la -> ba = zero_sentinel) /\
     (~ has_positive_quote (quotes md) lb -> bb = zero_sentinel)).
Proof.
  split.
  - split; [|apply find_best_odds_not_two].
    intros Hnone Hsize.
    destruct (find_best_odds_two md Hsize) as (la & lb & _ & _ & Hsome).
    rewrite Hsome in Hnone. discriminate.
  - intros Hsize.
    destruct (find_best_odds_two md Hsize) as (la & lb & Hset & Hlt & Hsome).
    pose proof (best_for_scan la (quotes md)) as Ha.
    pose proof (best_for_scan lb (quotes md)) as Hb.
    eexists la, lb, _, _.
    split; [exact Hset|]. split; [exact Hlt|]. split; [exact Hsome|].
    repeat split.
    + intros Hpos.
      destruct (best_for_positive _ _ _ Ha Hpos)
        as [(l1 & t & o & l2 & _ & _ & -> & _) _].
      reflexivity.
    + intros Hpos.
      destruct (best_for_positive _ _ _ Hb Hpos)
        as [(l1 & t & o & l2 & _ & _ & -> & _) _].
      reflexivity.
    + now apply best_for_no_positive.
    + now apply best_for_no_positive.
Qed.

(** C7 (as amended).  For a snapshot with exactly 2 distinct labels, the
    price in each returned record is at least the price of every quote
    with that record's label; and when some quote with the label has a
    price above 0, the record is the first-seen maximum: its price and
    bookmaker are those of a quote of the input with that label, every
    quote scanned before it with the label is strictly cheaper and none
    scanned after it is dearer. *)
Theorem find_best_odds_maximal (md : MarketData) :
  size (distinct_labels md) = 2%nat ->
  exists la lb ba bb,
    distinct_labels md = {[ la; lb ]} /\ String.ltb la lb = true /\
    find_best_odds md = Ok (Some ba, Some bb) /\
    (forall t o, (t, o) ∈ quotes md ->
       (o_name o = la -> o_price o <= price ba) /\
       (o_name o = lb -> o_price o <= price bb)) /\
    (has_positive_quote (quotes md) la -> first_seen_max (quotes md) la ba) /\
    (has_positive_quote (quotes md) lb -> first_seen_max (quotes md) lb bb).
Proof.
  intros Hsize.
  destruct (find_best_odds_two md Hsize) as (la & lb & Hset & Hlt & Hsome).
  pose proof (best_for_scan la (quotes md)) as Ha.
  pose proof (best_for_scan lb (quotes md)) as Hb.
  eexists la, lb, _, _.
  split; [exact Hset|]. split; [exact Hlt|]. split; [exact Hsome|].
  split; [|split].
  - intros t o Hin. split; intros Hlab.
    + eapply best_for_price_bound; eassumption.
    + eapply best_for_price_bound; eassumption.
  - intros Hpos. now apply (best_for_positive _ _ _ Ha Hpos).
  - intros Hpos. now apply (best_for_positive _ _ _ Hb Hpos).
Qed.

Lemma find_best_odds_labels_witness :
  size (distinct_labels snapshot_two_books) = 2%nat /\
  exists la lb ba bb,
    distinct_labels snapshot_two_books = {[ la; lb ]} /\
    String.ltb la lb = true /\
    find_best_odds snapshot_two_books = Ok (Some ba, Some bb) /\
    (has_positive_quote (quotes snapshot_two_books) la -> name ba = la) /\
    (has_positive_quote (quotes snapshot_two_books) lb -> name bb = lb) /\
    (~ has_positive_quote (quotes snapshot_two_books) la ->
     ba = zero_sentinel) /\
    (~ has_positive_quote (quotes snapshot_two_books) lb ->
     bb = zero_sentinel).
Proof.
  assert (size (distinct_labels snapshot_two_books) = 2%nat) as Hsize
    by (vm_compute; reflexivity).
  split; [exact Hsize|].
  exact (proj2 (find_best_odds_labels snapshot_two_books) Hsize).
Defined.

(** C6 as stated fails: the snapshot has the two labels Over and Under,
    and the record returned for outcome A carries the empty label, not
    Over, because the only Over quote has the price 0. *)
Lemma find_best_odds_empty_label :
  distinct_labels snapshot_zero_over = {[ "Over"; "Under" ]} /\
  size (distinct_labels snapshot_zero_over) = 2%nat /\
  exists ba bb,
    find_best_odds snapshot_zero_over = Ok (Some ba, Some bb) /\
    name ba = ""%string /\ name ba <> "Over"%string.
Proof.
  split; [vm_compute; reflexivity|]. split; [vm_compute; reflexivity|].
  eexists. eexists. split; [vm_compute; reflexivity|].
  cbn [name]. split; [reflexivity|discriminate].
Qed.

Lemma find_best_odds_maximal_witness :
  size (distinct_labels snapshot_two_books) = 2%nat /\
  exists la lb ba bb,
    distinct_labels snapshot_two_books = {[ la; lb ]} /\
    String.ltb la lb = true /\
    find_best_odds snapshot_two_books = Ok (Some ba, Some bb) /\
    (forall t o, (t, o) ∈ quotes snapshot_two_books ->
       (o_name o = la -> o_price o <= price ba) /\
       (o_name o = lb -> o_price o <= price bb)) /\
    (has_positive_quote (quotes snapshot_two_books) la ->
     first_seen_max (quotes snapshot_two_books) la ba) /\
    (has_positive_quote (quotes snapshot_two_books) lb ->
     first_seen_max (quotes snapshot_two_books) lb bb).
Proof.
  assert (size (distinct_labels snapshot_two_books) = 2%nat) as Hsize
    by (vm_compute; reflexivity).
  split; [exact Hsize|].
  exact (find_best_odds_maximal snapshot_two_books Hsize).
Defined.

(** The tie of the specification's scenario: BookA and BookB both quote
    Over at 1.9 and the bookmaker scanned first is kept. *)
Example find_best_odds_tie_first_seen :
  find_best_odds snapshot_two_books =
  Ok (Some {| price := 1.9; book := "BookA"; name := "Over" |},
      Some {| price := 2.05; book := "BookB"; name := "Under" |}).
Proof. vm_compute. reflexivity. Qed.

(** C7 as stated fails: both bookmakers quote Over at 0, the greatest
    Over price; the record returned for Over has that price but its
    bookmaker is empty instead of BookA, whose quote was scanned first,
    so the record is not the first-seen maximum of the Over quotes. *)
Lemma find_best_odds_tie_at_zero_no_bookmaker :
  size (distinct_labels snapshot_zero_over_twice) = 2%nat /\
  exists ba bb,
    find_best_odds snapshot_zero_over_twice = Ok (Some ba, Some bb) /\
    (forall t o, (t, o) ∈ quotes snapshot_zero_over_twice ->
                 o_name o = "Over"%string -> o_price o <= price ba) /\
    book ba = ""%string /\
    (forall t o, (t, o) ∈ quotes snapshot_zero_over_twice -> book ba <> t) /\
    ~ first_seen_max (quotes snapshot_zero_over_twice) "Over" ba.
Proof.
  split; [vm_compute; reflexivity|].
  eexists. eexists. split; [vm_compute; reflexivity|].
  cbn [price book].
  assert (forall t o, (t, o) ∈ quotes snapshot_zero_over_twice ->
            (t = "BookA" \/ t = "BookB")%string /\
            (o_name o = "Over"%string -> o_price o = 0)) as Hq.
  { intros t o Hin. cbn in Hin.
    repeat (apply elem_of_cons in Hin as [Hin|Hin];
            [injection Hin as -> ->; cbn; split; [auto|];
             first [reflexivity | discriminate]|]).
    now apply elem_of_nil in Hin. }
  split; [|split; [|split]].
  - intros t o Hin Hlab. destruct (Hq t o Hin) as [_ Hp].
    rewrite (Hp Hlab). apply Qle_refl.
  - reflexivity.
  - intros t o Hin. destruct (Hq t o Hin) as [[->| ->] _]; discriminate.
  - intros (l1 & t & o & l2 & _ & _ & Heq & _). discriminate Heq.
Qed.

(** * The caller's guard on the zero sentinel *)

(** What the guard does catch: a zero price on [best_a] leaves the
    results untouched. *)
Lemma scan_market_skips_zero_best_a (g : Game) (total_budget : Q)
    (results : list (string * MarketResult)) (market_key market_name : string)
    (ba bb : Best) :
  find_best_odds (market_data_for g market_key) = Ok (Some ba, Some bb) ->
  price ba == 0 ->
  scan_market g total_budget results (market_key, market_name) = Ok results.
Proof.
  intros Hfind Hzero. unfold scan_market.
  destruct (md_bookmakers (market_data_for g market_key)); [reflexivity|].
  rewrite Hfind. cbn [mbind exc_bind].
  apply Qeq_bool_iff in Hzero. now rewrite Hzero.
Qed.

(** C5, the code at a failing input.  The only bookmaker quotes Over at
    1.9 and Under at 0: after the scan the record for outcome B still
    has the price 0, and the market is nevertheless entered in the
    results of the game, by [ArbScanner.scan_game_markets] and by
    [BestOddsFinder.scan_game_markets] alike, because the guard tests
    the price of [best_a] only. *)
Theorem scan_game_markets_keeps_zero_best_b :
  (exists results entry,
     scan_game_markets game_zero_under FEATURED_MARKETS 500 = Ok results /\
     dict_get "Game Total O/U" (markets results) = Some entry /\
     best_b entry = zero_sentinel /\ price (best_b entry) = 0 /\
     arb entry = None) /\
  (exists results entry,
     BestLines.scan_game_markets game_zero_under BestLines.FEATURED_MARKETS
       = Ok results /\
     dict_get "Game Total O/U" (BestLines.markets results) = Some entry /\
     BestLines.best_b entry = zero_sentinel /\
     price (BestLines.best_b entry) = 0).
Proof.
  split.
  - eexists. eexists. split; [vm_compute; reflexivity|].
    split; [vm_compute; reflexivity|].
    cbn [best_b arb]. repeat split.
  - eexists. eexists. split; [vm_compute; reflexivity|].
    split; [vm_compute; reflexivity|].
    cbn [BestLines.best_b]. repeat split.
Qed.

Lemma Forall_filter_nil_bool {A : Type} (p : A -> bool) (l : list A) :
  Forall (fun x => p x = false) l -> List.filter p l = [].
Proof.
  induction 1 as [|x l Hx _ IH]; [reflexivity|].
  cbn [List.filter]. now rewrite Hx.
Qed.

Lemma filter_map_snd {K A : Type} (q : A -> bool) (l : list (K * A)) :
  List.filter q (map snd l) = map snd (List.filter (fun e => q (snd e)) l).
Proof.
  induction l as [|e l IH]; [reflexivity|].
  cbn [map List.filter]. destruct (q (snd e)); cbn [map]; now rewrite IH.
Qed.

(** * Ranking *)

(** ** A stable insertion sort on keys *)

Section StableSortFacts.

Context {K A : Type} (lt : K -> K -> bool).
Hypothesis lt_irrefl : forall k, lt k k = false.
Hypothesis lt_trans :
  forall a b c, lt a b = true -> lt b c = true -> lt a c = true.

Lemma lt_asym (a b : K) : lt a b = true -> lt b a = false.
Proof.
  intros Hab. destruct (lt b a) eqn:Hba; [|reflexivity].
  rewrite <- (lt_irrefl a). symmetry. now apply (lt_trans a b a).
Qed.

Lemma insert_by_perm (x : K * A) (l : list (K * A)) : insert_by lt x l ≡ₚ l ++ [x].
Proof.
  induction l as [|y l IH]; [reflexivity|].
  cbn [insert_by]. destruct (lt (fst x) (fst y)).
  - change (x :: y :: l) with ([x] ++ (y :: l)). apply Permutation_app_comm.
  - cbn [app]. now rewrite IH.
Qed.

Lemma fold_insert_perm (l acc : list (K * A)) :
  fold_left (fun acc x => insert_by lt x acc) l acc ≡ₚ acc ++ l.
Proof.
  revert acc. induction l as [|x l IH]; intros acc.
  - now rewrite app_nil_r.
  - cbn [fold_left]. rewrite IH, insert_by_perm.
    now rewrite <- app_assoc.
Qed.

Lemma sort_decorated_perm (l : list (K * A)) : sort_decorated lt l ≡ₚ l.
Proof. apply (fold_insert_perm l []). Qed.

Lemma insert_by_sorted (x : K * A) (l : list (K * A)) :
  StronglySorted (key_le lt) l -> StronglySorted (key_le lt) (insert_by lt x l).
Proof.
  induction 1 as [|y l Hsorted IH Hall]; cbn [insert_by].
  - repeat constructor.
  - destruct (lt (fst x) (fst y)) eqn:Hxy.
    + constructor; [now constructor|].
      constructor; [now apply lt_asym|].
      eapply Forall_impl; [exact Hall|]. intros z Hyz.
      unfold key_le in *. destruct (lt (fst z) (fst x)) eqn:Hzx; [|reflexivity].
      rewrite <- Hyz. symmetry. now apply (lt_trans _ (fst x)).
    + constructor; [exact IH|].
      rewrite insert_by_perm. apply Forall_app. split; [exact Hall|].
      constructor; [exact Hxy|constructor].
Qed.

Lemma fold_insert_sorted (l acc : list (K * A)) :
  StronglySorted (key_le lt) acc ->
  StronglySorted (key_le lt) (fold_left (fun acc x => insert_by lt x acc) l acc).
Proof.
  revert acc. induction l as [|x l IH]; intros acc Hacc; [exact Hacc|].
  cbn [fold_left]. apply IH. now apply insert_by_sorted.
Qed.

Lemma sort_decorated_sorted (l : list (K * A)) :
  StronglySorted (key_le lt) (sort_decorated lt l).
Proof. apply fold_insert_sorted. constructor. Qed.

(** Stability, for a class of elements that all carry the key [k0]:
    the sort keeps them in their input order. *)
Section Stability.

Variable p : K * A -> bool.
Variable k0 : K.

Lemma insert_by_filter (x : K * A) (l : list (K * A)) :
  (forall e, e ∈ x :: l -> p e = true -> fst e = k0) ->
  StronglySorted (key_le lt) l ->
  List.filter p (insert_by lt x l) = List.filter p l ++ (if p x then [x] else []).
Proof.
  intros Hkey Hsorted. induction Hsorted as [|y l Hsorted IH Hall].
  - cbn. destruct (p x); reflexivity.
  - cbn [insert_by]. destruct (lt (fst x) (fst y)) eqn:Hxy.
    + cbn [List.filter]. destruct (p x) eqn:Hpx; [|now rewrite app_nil_r].
      assert (fst x = k0) as Hx by (apply Hkey; [apply list_elem_of_here|exact Hpx]).
      assert (p y = false) as ->.
      { destruct (p y) eqn:Hpy; [|reflexivity].
        assert (fst y = k0) as Hy.
        { apply Hkey; [|exact Hpy].
          apply list_elem_of_further, list_elem_of_here. }
        rewrite Hx, Hy, lt_irrefl in Hxy. discriminate. }
      assert (List.filter p l = []) as ->; [|reflexivity].
      apply Forall_filter_nil_bool. rewrite Forall_forall in Hall |- *.
      intros z Hz. destruct (p z) eqn:Hpz; [|reflexivity].
      assert (fst z = k0) as Hzk.
      { apply Hkey; [|exact Hpz].
        do 2 apply list_elem_of_further. exact Hz. }
      specialize (Hall z Hz). unfold key_le in Hall.
      rewrite Hzk, <- Hx, Hxy in Hall. discriminate.
    + cbn [List.filter]. rewrite IH.
      * destruct (p y); reflexivity.
      * intros e He. apply Hkey.
        apply elem_of_cons in He as [->|He];
          [apply list_elem_of_here|do 2 apply list_elem_of_further; exact He].
Qed.

Lemma fold_insert_filter (l acc : list (K * A)) :
  (forall e, e ∈ acc ++ l -> p e = true -> fst e = k0) ->
  StronglySorted (key_le lt) acc ->
  List.filter p (fold_left (fun acc x => insert_by lt x acc) l acc) =
  List.filter p acc ++ List.filter p l.
Proof.
  revert acc. induction l as [|x l IH]; intros acc Hkey Hacc.
  - cbn. now rewrite app_nil_r.
  - cbn [fold_left]. rewrite IH.
    + rewrite insert_by_filter; [|intros e He; apply Hkey|exact Hacc].
      * rewrite <- app_assoc. cbn [List.filter]. destruct (p x); reflexivity.
      * apply elem_of_app. apply elem_of_cons in He as [->|He];
          [right; apply list_elem_of_here|left; exact He].
    + intros e He. apply Hkey.
      apply elem_of_app in He as [He|He].
      * rewrite insert_by_perm in He. apply elem_of_app in He as [He|He].
        -- apply elem_of_app. now left.
        -- apply list_elem_of_singleton in He as ->.
           apply elem_of_app. right. apply list_elem_of_here.
      * apply elem_of_app. right. now apply list_elem_of_further.
    + now apply insert_by_sorted.
Qed.

Lemma sort_decorated_filter (l : list (K * A)) :
  (forall e, e ∈ l -> p e = true -> fst e = k0) ->
  List.filter p (sort_decorated lt l) = List.filter p l.
Proof.
  intros Hkey. unfold sort_decorated.
  rewrite fold_insert_filter; [reflexivity|exact Hkey|constructor].
Qed.

End Stability.

(** A sorted list in which no element of the class [p] may stand before
    an element outside of it is the elements outside [p] followed by the
    elements of [p]. *)
Lemma sorted_partition (p : K * A -> bool) (l : list (K * A)) :
  StronglySorted (key_le lt) l ->
  (forall x y, x ∈ l -> y ∈ l -> p x = true -> p y = false -> ~ key_le lt x y) ->
  l = List.filter (fun e => negb (p e)) l ++ List.filter p l.
Proof.
  intros Hsorted. induction Hsorted as [|x l Hsorted IH Hall]; intros Hsep.
  - reflexivity.
  - assert (l = List.filter (fun e => negb (p e)) l ++ List.filter p l) as Hl.
    { apply IH. intros a b Ha Hb. apply Hsep; now apply list_elem_of_further. }
    cbn [List.filter]. destruct (p x) eqn:Hpx; cbn [negb].
    + assert (Forall (fun e => p e = true) l) as Hallp.
      { rewrite Forall_forall in Hall |- *. intros y Hy.
        destruct (p y) eqn:Hpy; [reflexivity|]. exfalso.
        apply (Hsep x y);
          [apply list_elem_of_here|now apply list_elem_of_further|
           exact Hpx|exact Hpy|now apply Hall]. }
      assert (List.filter (fun e => negb (p e)) l = []) as Hnone.
      { apply Forall_filter_nil_bool. eapply Forall_impl; [exact Hallp|].
        intros y ->. reflexivity. }
      rewrite Hnone in Hl |- *. cbn [app] in Hl |- *. f_equal. exact Hl.
    + cbn [app]. f_equal. exact Hl.
Qed.

End StableSortFacts.

(** ** The key order *)

Lemma key_lt_iff (k1 k2 : Z * Q) :
  key_lt k1 k2 = true <->
  (fst k1 < fst k2)%Z \/ (fst k1 = fst k2 /\ snd k1 < snd k2).
Proof.
  unfold key_lt. destruct (Z.eqb_spec (fst k1) (fst k2)) as [E|E]; cbn [negb].
  - destruct (Qeq_bool (snd k1) (snd k2)) eqn:Eq; cbn [negb].
    + apply Qeq_bool_iff in Eq. split; [discriminate|].
      intros [H|[_ H]]; [lia|lra].
    + rewrite negb_true_iff, Qle_bool_false. split; [auto|].
      intros [H|[_ H]]; [lia|exact H].
  - rewrite Z.ltb_lt. split; [auto|]. intros [H|[H _]]; [exact H|contradiction].
Qed.

Lemma key_lt_irrefl (k : Z * Q) : key_lt k k = false.
Proof.
  destruct (key_lt k k) eqn:E; [|reflexivity].
  apply key_lt_iff in E as [H|[_ H]]; [lia|lra].
Qed.

Lemma key_lt_trans (a b c : Z * Q) :
  key_lt a b = true -> key_lt b c = true -> key_lt a c = true.
Proof.
  rewrite !key_lt_iff.
  intros [H1|[H1 H1']] [H2|[H2 H2']]; try (left; lia).
  right. split; [lia|lra].
Qed.

(** ** The key of a game *)

Lemma list_min_below (l : list Q) (m bound : Q) :
  list_min l = Some m -> Forall (fun x => x < bound) l -> m < bound.
Proof.
  revert m. induction l as [|x l IH]; intros m Hm Hall; [discriminate|].
  apply Forall_cons in Hall as [Hx Hall]. cbn [list_min] in Hm.
  destruct (list_min l) as [m'|].
  - injection Hm as <-. apply Q.min_lt_iff. now left.
  - now injection Hm as <-.
Qed.

Lemma consistent_arb_total_prob (market : MarketResult) r :
  consistent market -> arb market = Some r ->
  1 < price (best_a market) /\ 1 < price (best_b market) /\
  total_prob market < 1.
Proof.
  intros [budget Hcalc] Harb. rewrite Harb in Hcalc.
  exact (calculate_stakes_some_inv _ _ _ _ Hcalc).
Qed.

Lemma sort_key_loop (vs : list MarketResult) (arb_found : Z) (min_prob : Q) :
  Forall consistent vs ->
  exists arb_found' min_prob',
    for_each sort_key_step vs (arb_found, min_prob)
      = Ok (arb_found', min_prob') /\
    match list_min (map total_prob
             (List.filter (fun market => match arb market with
                                         | Some _ => true | None => false end)
                          vs)) with
    | None => arb_found' = arb_found /\ min_prob' = min_prob
    | Some m => arb_found' = 1%Z /\ min_prob' == Qmin min_prob m
    end.
Proof.
  intros Hall. revert arb_found min_prob.
  induction Hall as [|v vs Hv _ IH]; intros arb_found min_prob.
  - exists arb_found, min_prob. split; [reflexivity|]. cbn. auto.
  - cbn [for_each List.filter].
    change (sort_key_step (arb_found, min_prob) v) with
      (match arb v with
       | Some _ =>
           pa ← truediv 1 (price (best_a v));
           pb ← truediv 1 (price (best_b v));
           if negb (Qle_bool min_prob (pa + pb)) then mret (1%Z, pa + pb)
           else mret (1%Z, min_prob)
       | None => mret (arb_found, min_prob)
       end).
    destruct (arb v) as [r|] eqn:Harb.
    + destruct (consistent_arb_total_prob v r Hv Harb) as (Ha & Hb & Ht).
      rewrite (truediv_ok 1 (price (best_a v))) by lra.
      cbn [mbind exc_bind].
      rewrite (truediv_ok 1 (price (best_b v))) by lra.
      cbn [mbind exc_bind]. fold (total_prob v).
      cbn [map list_min].
      destruct (Qle_bool min_prob (total_prob v)) eqn:Hcmp;
        cbn [negb mret exc_ret mbind exc_bind].
      * apply Qle_bool_iff in Hcmp.
        destruct (IH 1%Z min_prob) as (af & mp & -> & Hspec).
        exists af, mp. split; [reflexivity|].
        destruct (list_min _) as [m|].
        -- destruct Hspec as [-> Hmp]. split; [reflexivity|].
           rewrite Hmp, Q.min_assoc.
           now rewrite (Q.min_l min_prob (total_prob v)).
        -- destruct Hspec as [-> ->]. split; [reflexivity|].
           now rewrite Q.min_l.
      * apply Qle_bool_false in Hcmp.
        destruct (IH 1%Z (total_prob v)) as (af & mp & -> & Hspec).
        exists af, mp. split; [reflexivity|].
        destruct (list_min _) as [m|].
        -- destruct Hspec as [-> Hmp]. split; [reflexivity|].
           rewrite Hmp, Q.min_assoc.
           rewrite (Q.min_r min_prob (total_prob v)) by lra. reflexivity.
        -- destruct Hspec as [-> ->]. split; [reflexivity|].
           rewrite Q.min_r by lra. reflexivity.
    + cbn [mret exc_ret mbind exc_bind]. apply IH.
Qed.

Lemma has_arb_min_total_prob (item : GameResults) :
  has_arb item = match min_total_prob item with
                 | Some _ => true
                 | None => false
                 end.
Proof.
  unfold has_arb, min_total_prob, arb_total_probs.
  induction (dict_values (markets item)) as [|v vs IH]; [reflexivity|].
  cbn [existsb List.filter]. destruct (arb v); cbn [orb map list_min].
  - now destruct (list_min _).
  - exact IH.
Qed.

(** The key of a well-formed game: [(0, 2.0)] without an arbitrage
    result, [(-1, m)] with [m] the minimum [totalProb] of its
    arbitrage-bearing markets otherwise. *)
Lemma sort_key_spec (item : GameResults) :
  well_formed item ->
  exists k, sort_key item = Ok k /\
    match min_total_prob item with
    | None => k = (0%Z, 2)
    | Some m => fst k = (-1)%Z /\ snd k == m
    end.
Proof.
  intros Hwf. unfold sort_key.
  destruct (sort_key_loop _ 0%Z 2 Hwf) as (af & mp & -> & Hspec).
  cbn [mbind exc_bind mret exc_ret]. eexists. split; [reflexivity|].
  unfold min_total_prob, arb_total_probs.
  destruct (list_min _) as [m|] eqn:Hmin.
  - destruct Hspec as [-> Hmp]. cbn [fst snd]. split; [reflexivity|].
    rewrite Hmp. apply Q.min_r.
    assert (m < 1) as Hlt; [|lra].
    apply (list_min_below _ _ _ Hmin).
    apply Forall_map. apply Forall_forall. intros v Hv.
    apply list_elem_of_In, filter_In in Hv as [Hv Harb].
    destruct (arb v) as [r|] eqn:E; [|discriminate].
    unfold well_formed in Hwf. rewrite Forall_forall in Hwf.
    apply list_elem_of_In in Hv.
    now destruct (consistent_arb_total_prob v r (Hwf v Hv) E) as (_ & _ & Ht).
  - destruct Hspec as [-> ->]. reflexivity.
Qed.

Lemma decorate_spec (items : list GameResults) :
  Forall well_formed items ->
  exists kl, decorate sort_key items = Ok kl /\
    map snd kl = items /\
    Forall (fun e => sort_key (snd e) = Ok (fst e)) kl.
Proof.
  induction 1 as [|x items Hx _ IH].
  - exists []. repeat split. constructor.
  - destruct (sort_key_spec x Hx) as (k & Hk & _).
    destruct IH as (kl & Hkl & Hmap & Hall).
    exists ((k, x) :: kl). cbn [decorate]. rewrite Hk. cbn [mbind exc_bind].
    rewrite Hkl. cbn [mbind exc_bind]. split; [reflexivity|].
    cbn [map snd]. split; [now rewrite Hmap|].
    constructor; [exact Hk|exact Hall].
Qed.

(** ** The ranked list *)

Lemma filter_bool_perm {A : Type} (p : A -> bool) (l l' : list A) :
  l ≡ₚ l' -> List.filter p l ≡ₚ List.filter p l'.
Proof.
  induction 1 as [|x l l' _ IH|x y l|l l' l'' _ IH1 _ IH2].
  - reflexivity.
  - cbn [List.filter]. destruct (p x); [now constructor|exact IH].
  - cbn [List.filter]. destruct (p x), (p y); try reflexivity. constructor.
  - now transitivity (List.filter p l').
Qed.

Lemma keyed_no_arb e : keyed e -> has_arb (snd e) = false -> fst e = (0%Z, 2).
Proof.
  intros [Hwf Hkey] Hno.
  destruct (sort_key_spec _ Hwf) as (k & Hk & Hspec).
  rewrite Hkey in Hk. injection Hk as <-.
  rewrite has_arb_min_total_prob in Hno.
  destruct (min_total_prob (snd e)); [discriminate|exact Hspec].
Qed.

Lemma keyed_arb e :
  keyed e -> has_arb (snd e) = true ->
  exists m, min_total_prob (snd e) = Some m /\
            fst (fst e) = (-1)%Z /\ snd (fst e) == m.
Proof.
  intros [Hwf Hkey] Hyes.
  destruct (sort_key_spec _ Hwf) as (k & Hk & Hspec).
  rewrite Hkey in Hk. injection Hk as <-.
  rewrite has_arb_min_total_prob in Hyes.
  destruct (min_total_prob (snd e)) as [m|]; [|discriminate].
  exists m. split; [reflexivity|exact Hspec].
Qed.

Lemma sorted_arbs_ranked (l : list ((Z * Q) * GameResults)) :
  StronglySorted (key_le key_lt) l -> Forall keyed l ->
  StronglySorted ranks_before
    (map snd (List.filter (fun e => has_arb (snd e)) l)).
Proof.
  induction 1 as [|x l Hsorted IH Hall]; intros Hkeyed; [constructor|].
  apply Forall_cons in Hkeyed as [Hx Hkeyed].
  cbn [List.filter]. destruct (has_arb (snd x)) eqn:Harbx; [|now apply IH].
  cbn [map]. constructor; [now apply IH|].
  apply Forall_map. apply Forall_forall. intros y Hy.
  apply list_elem_of_In, filter_In in Hy as [Hy Harby].
  apply list_elem_of_In in Hy.
  rewrite Forall_forall in Hall, Hkeyed.
  destruct (keyed_arb x Hx Harbx) as (mx & Hmx & Hx1 & Hx2).
  destruct (keyed_arb y (Hkeyed y Hy) Harby) as (my & Hmy & Hy1 & Hy2).
  exists mx, my. split; [exact Hmx|]. split; [exact Hmy|].
  specialize (Hall y Hy). unfold key_le in Hall.
  destruct (Qlt_le_dec my mx) as [Hlt|Hle]; [|exact Hle].
  assert (key_lt (fst y) (fst x) = true) as Hcontra.
  { apply key_lt_iff. right. split; [congruence|]. rewrite Hx2, Hy2. exact Hlt. }
  congruence.
Qed.

(** The ranking of well-formed game results: the games with an arbitrage
    result in ascending order of margin, then the others as they came. *)
Lemma sort_results_ranked (items : list GameResults) :
  Forall well_formed items ->
  exists ranked arbs,
    sort_results items = Ok ranked /\
    ranked = arbs ++ List.filter (fun g => negb (has_arb g)) items /\
    arbs ≡ₚ List.filter has_arb items /\
    StronglySorted ranks_before arbs.
Proof.
  intros Hwf.
  destruct (decorate_spec items Hwf) as (kl & Hdec & Hmap & Hkeys).
  set (sl := sort_decorated key_lt kl).
  pose proof (sort_decorated_perm key_lt kl) as Hperm. fold sl in Hperm.
  pose proof (sort_decorated_sorted key_lt key_lt_irrefl key_lt_trans kl)
    as Hsorted.
  fold sl in Hsorted.
  assert (Forall keyed kl) as Hkeyed.
  { rewrite <- Hmap in Hwf. rewrite Forall_map in Hwf.
    rewrite Forall_forall in Hwf, Hkeys |- *.
    intros e He. split; [now apply Hwf|now apply Hkeys]. }
  assert (Forall keyed sl) as Hkeyed' by (now rewrite Hperm).
  exists (map snd sl), (map snd (List.filter (fun e => has_arb (snd e)) sl)).
  split; [|split; [|split]].
  - unfold sort_results, list_sort. rewrite Hdec. reflexivity.
  - rewrite <- Hmap. rewrite filter_map_snd.
    rewrite <- (sort_decorated_filter key_lt key_lt_irrefl key_lt_trans
                  (fun e => negb (has_arb (snd e))) (0%Z, 2) kl).
    + fold sl. rewrite <- map_app. f_equal.
      rewrite (sorted_partition key_lt (fun e => negb (has_arb (snd e))) sl)
        at 1.
      * f_equal. apply filter_ext. intros e. apply negb_involutive.
      * exact Hsorted.
      * intros x y Hx Hy Hpx Hpy Hle.
        apply negb_true_iff in Hpx. apply negb_false_iff in Hpy.
        rewrite Forall_forall in Hkeyed'.
        pose proof (keyed_no_arb x (Hkeyed' x Hx) Hpx) as Hkx.
        destruct (keyed_arb y (Hkeyed' y Hy) Hpy) as (m & _ & Hy1 & _).
        unfold key_le in Hle.
        assert (key_lt (fst y) (fst x) = true) as Hlt.
        { apply key_lt_iff. left. rewrite Hkx, Hy1. reflexivity. }
        congruence.
    + intros e He Hpe. apply negb_true_iff in Hpe.
      rewrite Forall_forall in Hkeyed. now apply keyed_no_arb; [apply Hkeyed|].
  - rewrite <- filter_map_snd. rewrite <- Hmap.
    apply filter_bool_perm. now apply Permutation_map.
  - now apply sorted_arbs_ranked.
Qed.



(** The sample list, ranked: the tightest margin first, the two games of
    equal margin and the two games without an opportunity in their input
    order. *)
Example sort_results_sample :
  exists ranked, sort_results sample_results = Ok ranked /\
    map game ranked =
    [ "Kings @ Stars"; "Nets @ Heat"; "Rams @ Lions";
      "Jets @ Bills"; "Mets @ Cubs" ]%string.
Proof. eexists. split; vm_compute; reflexivity. Qed.

(** ** The scan builds well-formed results *)

Lemma for_each_invariant {A S : Type} (P : S -> Prop) (body : S -> A -> exc S)
    (l : list A) (s s' : S) :
  (forall s x s', P s -> body s x = Ok s' -> P s') ->
  P s -> for_each body l s = Ok s' -> P s'.
Proof.
  intros Hstep. revert s. induction l as [|x l IH]; intros s Hs Hrun.
  - cbn in Hrun. now injection Hrun as <-.
  - cbn [for_each] in Hrun. destruct (body s x) as [e|s1] eqn:Hbody;
      [discriminate|].
    cbn [mbind exc_bind] in Hrun. eapply IH; [|exact Hrun].
    eapply Hstep; eassumption.
Qed.

Lemma dict_set_values_Forall {V : Type} (P : V -> Prop) (k : string) (v : V)
    (d : list (string * V)) :
  Forall P (dict_values d) -> P v -> Forall P (dict_values (dict_set k v d)).
Proof.
  intros Hd Hv. induction d as [|[k' v'] d IH]; cbn [dict_set].
  - repeat constructor. exact Hv.
  - apply Forall_cons in Hd as [Hv' Hd].
    destruct (String.eqb k' k); constructor; auto.
Qed.

Lemma scan_market_consistent (g : Game) (total_budget : Q)
    (results results' : list (string * MarketResult)) (m : string * string) :
  Forall consistent (dict_values results) ->
  scan_market g total_budget results m = Ok results' ->
  Forall consistent (dict_values results').
Proof.
  intros Hres Hscan. destruct m as [market_key market_name].
  unfold scan_market in Hscan.
  destruct (md_bookmakers (market_data_for g market_key));
    [now injection Hscan as <-|].
  destruct (find_best_odds _) as [e|[[ba|] [bb|]]];
    cbn [mbind exc_bind mret exc_ret] in Hscan;
    try discriminate; try (now injection Hscan as <-).
  destruct (Qeq_bool (price ba) 0); [now injection Hscan as <-|].
  destruct (calculate_stakes total_budget (price ba) (price bb))
    as [e|arb_result] eqn:Hcalc; [discriminate|].
  cbn [mbind exc_bind mret exc_ret] in Hscan. injection Hscan as <-.
  apply dict_set_values_Forall; [exact Hres|].
  exists total_budget. exact Hcalc.
Qed.

Lemma scan_game_markets_well_formed (g : Game) (ms : list (string * string))
    (total_budget : Q) (results : GameResults) :
  scan_game_markets g ms total_budget = Ok results -> well_formed results.
Proof.
  unfold scan_game_markets. intros Hscan.
  destruct (for_each _ ms []) as [e|d] eqn:Hloop; [discriminate|].
  cbn [mbind exc_bind mret exc_ret] in Hscan. injection Hscan as <-.
  unfold well_formed. cbn [markets].
  apply (for_each_invariant (fun d => Forall consistent (dict_values d))
           (scan_market g total_budget) ms [] d);
    [|constructor|exact Hloop].
  intros s x s'. apply scan_market_consistent.
Qed.

Lemma collect_results_well_formed (game_data : list Game) (total_budget : Q)
    (all_game_results : list GameResults) :
  collect_results game_data total_budget = Ok all_game_results ->
  Forall well_formed all_game_results.
Proof.
  unfold collect_results.
  apply (for_each_invariant (Forall well_formed)); [|constructor].
  intros s g s' Hs Hbody.
  destruct (scan_game_markets g FEATURED_MARKETS total_budget)
    as [e|results] eqn:Hscan; [discriminate|].
  cbn [mbind exc_bind] in Hbody.
  destruct (markets results); cbn [mret exc_ret] in Hbody;
    injection Hbody as <-; [exact Hs|].
  apply Forall_app. split; [exact Hs|].
  constructor; [|constructor].
  eapply scan_game_markets_well_formed. exact Hscan.
Qed.

(** What [run_scanner] hands to the printing code once every game is
    scanned. *)
Corollary run_scanner_ranking (game_data : list Game) (total_budget : Q)
    (all_game_results : list GameResults) :
  collect_results game_data total_budget = Ok all_game_results ->
  exists ranked arbs,
    run_scanner game_data total_budget = Ok ranked /\
    ranked = arbs ++ List.filter (fun g => negb (has_arb g)) all_game_results /\
    arbs ≡ₚ List.filter has_arb all_game_results /\
    StronglySorted ranks_before arbs.
Proof.
  intros Hcollect.
  destruct (sort_results_ranked all_game_results
              (collect_results_well_formed _ _ _ Hcollect))
    as (ranked & arbs & Hsort & Hrest).
  exists ranked, arbs. split; [|exact Hrest].
  unfold run_scanner. rewrite Hcollect. exact Hsort.
Qed.

(** * More on the arithmetic of [calculate_stakes] *)



Lemma round_half_even_bounds (y : Q) :
  (Qfloor y <= round_half_even y <= Qfloor y + 1)%Z.
Proof.
  unfold round_half_even.
  destruct (Qcompare _ _); [destruct (Z.even _)| |]; lia.
Qed.

Lemma round_half_even_mono (x y : Q) :
  x <= y -> (round_half_even x <= round_half_even y)%Z.
Proof.
  intros Hxy.
  pose proof (Qfloor_resp_le x y Hxy) as Hfloor.
  destruct (Z.eq_dec (Qfloor x) (Qfloor y)) as [E|E].
  - unfold round_half_even. rewrite E.
    destruct (Qcompare_spec (x - inject_Z (Qfloor y)) (1 # 2)) as [Cx|Cx|Cx];
      destruct (Qcompare_spec (y - inject_Z (Qfloor y)) (1 # 2)) as [Cy|Cy|Cy];
      try (destruct (Z.even (Qfloor y))); try lia; exfalso; lra.
  - pose proof (round_half_even_bounds x). pose proof (round_half_even_bounds y).
    lia.
Qed.

Lemma round2_mono (x y : Q) : x <= y -> round x 2 <= round y 2.
Proof.
  intros Hxy. rewrite !round2_unfold.
  assert (round_half_even (x * 100) <= round_half_even (y * 100))%Z as Hk
    by (apply round_half_even_mono; lra).
  rewrite Zle_Qle in Hk.
  set (kx := inject_Z (round_half_even (x * 100))) in *.
  set (ky := inject_Z (round_half_even (y * 100))) in *.
  assert (kx / 100 == kx * (1 # 100)) as -> by field.
  assert (ky / 100 == ky * (1 # 100)) as -> by field.
  lra.
Qed.

Lemma calculate_stakes_some_budget (total_budget odds_a odds_b : Q) r :
  calculate_stakes total_budget odds_a odds_b = Ok (Some r) ->
  ~ total_budget == 0.
Proof.
  intros Hsome Hz.
  destruct (calculate_stakes_some_inv _ _ _ _ Hsome) as (Ha & Hb & Ht).
  rewrite calculate_stakes_zero_budget in Hsome by assumption. discriminate.
Qed.

(** A returned record is the rounding of the values of the four local
    variables. *)
Lemma calculate_stakes_some_form (total_budget odds_a odds_b : Q) r :
  calculate_stakes total_budget odds_a odds_b = Ok (Some r) ->
  1 < odds_a /\ 1 < odds_b /\ 1 / odds_a + 1 / odds_b < 1 /\
  ~ total_budget == 0 /\
  r = {| stake_a :=
           round (total_budget * (1 / odds_a) / (1 / odds_a + 1 / odds_b)) 2;
         stake_b :=
           round (total_budget * (1 / odds_b) / (1 / odds_a + 1 / odds_b)) 2;
         profit :=
           round (total_budget * (1 / odds_a) / (1 / odds_a + 1 / odds_b)
                  * odds_a - total_budget) 2;
         roi :=
           round ((total_budget * (1 / odds_a) / (1 / odds_a + 1 / odds_b)
                   * odds_a - total_budget) / total_budget * 100) 2 |}.
Proof.
  intros Hsome.
  destruct (calculate_stakes_some_inv _ _ _ _ Hsome) as (Ha & Hb & Ht).
  pose proof (calculate_stakes_some_budget _ _ _ _ Hsome) as Hbud.
  repeat (split; [assumption|]).
  rewrite calculate_stakes_opportunity in Hsome by assumption.
  now injection Hsome as <-.
Qed.





(** With a positive budget both returned stakes are at least 0 and the
    greater price gets the smaller stake. *)
Theorem calculate_stakes_stake_order (total_budget odds_a odds_b : Q) r :
  calculate_stakes total_budget odds_a odds_b = Ok (Some r) ->
  0 < total_budget -> odds_a <= odds_b ->
  0 <= stake_b r /\ stake_b r <= stake_a r.
Proof.
  intros Hsome Hbud Hle.
  destruct (calculate_stakes_some_form _ _ _ _ Hsome)
    as (Ha & Hb & Ht & _ & ->).
  cbn [stake_a stake_b].
  assert (0 < 1 / odds_a + 1 / odds_b) as HT
    by (apply total_prob_pos; assumption).
  pose proof (prob_b_pos odds_b Hb) as Hpb.
  assert (1 / odds_b <= 1 / odds_a) as Hprob.
  { pose proof (prob_a_pos odds_a Ha) as Hpa.
    assert (1 / odds_a - 1 / odds_b ==
            (1 / odds_a * (1 / odds_b)) * (odds_b - odds_a)) as E
      by (field; split; lra).
    assert (0 <= (1 / odds_a * (1 / odds_b)) * (odds_b - odds_a)) as Hprod.
    { apply Qmult_le_0_compat; [|lra].
      apply Qmult_le_0_compat; lra. }
    lra. }
  set (T := 1 / odds_a + 1 / odds_b) in *.
  assert (0 < / T) as HiT by (now apply Qinv_lt_0_compat).
  split.
  - apply round2_nonneg. unfold Qdiv at 1.
    apply Qmult_le_0_compat; [|lra].
    apply Qmult_le_0_compat; lra.
  - apply round2_mono. unfold Qdiv at 1 3.
    apply Qmult_le_compat_r; [|lra].
    rewrite (Qmult_comm total_budget (1 / odds_b)).
    rewrite (Qmult_comm total_budget (1 / odds_a)).
    apply Qmult_le_compat_r; lra.
Qed.

Lemma calculate_stakes_stake_order_witness :
  exists r, calculate_stakes 500 1.6 3 = Ok (Some r) /\
    0 < 500 /\ 1.6 <= 3 /\ 0 <= stake_b r /\ stake_b r <= stake_a r.
Proof.
  eexists. split; [vm_compute; reflexivity|].
  split; [reflexivity|]. split; [vm_compute; discriminate|].
  apply (calculate_stakes_stake_order 500 1.6 3);
    [vm_compute; reflexivity|reflexivity|vm_compute; discriminate].
Defined.

Lemma size_union_alt_two (la lb : string) :
  la <> lb -> size ({[ la; lb ]} : gset string) = 2%nat.
Proof.
  intros Hne. rewrite size_union by (now apply disjoint_singleton_l, not_elem_of_singleton).
  now rewrite !size_singleton.
Qed.

(** * More on [find_best_odds] *)

Lemma find_best_odds_some_inv (md : MarketData) (ba bb : Best) :
  find_best_odds md = Ok (Some ba, Some bb) ->
  exists la lb,
    distinct_labels md = {[ la; lb ]} /\ String.ltb la lb = true /\
    best_for (quotes md) la ba /\ best_for (quotes md) lb bb.
Proof.
  intros Hfind.
  destruct (decide (size (distinct_labels md) = 2%nat)) as [Hsize|Hsize].
  - destruct (find_best_odds_two md Hsize) as (la & lb & Hset & Hlt & Hsome).
    rewrite Hsome in Hfind. injection Hfind as <- <-.
    exists la, lb. repeat split; try assumption; apply best_for_scan.
  - rewrite find_best_odds_not_two in Hfind by assumption. discriminate.
Qed.

Lemma best_for_price_nonneg qs label b :
  best_for qs label b -> 0 <= price b /\ (price b == 0 -> b = zero_sentinel).
Proof.
  intros [[-> _]|[_ Hpos]].
  - split; [apply Qle_refl|reflexivity].
  - split; [lra|]. intros Hz. lra.
Qed.

Lemma find_best_odds_cases (md : MarketData) :
  find_best_odds md = Ok (None, None) \/
  exists ba bb, find_best_odds md = Ok (Some ba, Some bb).
Proof.
  destruct (decide (size (distinct_labels md) = 2%nat)) as [Hsize|Hsize].
  - right. destruct (find_best_odds_two md Hsize) as (la & lb & _ & _ & Hsome).
    eauto.
  - left. now apply find_best_odds_not_two.
Qed.

(** The unpacking [name_a, name_b = sorted(...)] cannot fail: the call
    raises nothing, and it returns either [(None, None)] or two records,
    never one record beside a [None]. *)
Theorem find_best_odds_never_raises (md : MarketData) :
  (forall e, find_best_odds md <> Raise e) /\
  (find_best_odds md = Ok (None, None) \/
   exists ba bb, find_best_odds md = Ok (Some ba, Some bb)).
Proof.
  split; [|apply find_best_odds_cases].
  intros e He.
  destruct (find_best_odds_cases md) as [H|(ba & bb & H)];
    rewrite H in He; discriminate.
Qed.

Lemma find_best_odds_prices (md : MarketData) (ba bb : Best) :
  find_best_odds md = Ok (Some ba, Some bb) ->
  0 <= price ba /\ 0 <= price bb /\
  (price ba == 0 -> ba = zero_sentinel) /\
  (price bb == 0 -> bb = zero_sentinel).
Proof.
  intros Hfind.
  destruct (find_best_odds_some_inv md ba bb Hfind)
    as (la & lb & _ & _ & Ha & Hb).
  destruct (best_for_price_nonneg _ _ _ Ha) as [Ha1 Ha2].
  destruct (best_for_price_nonneg _ _ _ Hb) as [Hb1 Hb2].
  auto.
Qed.

(** A returned price is never negative, whatever the quotes, and a
    returned price of 0 only ever comes with the untouched initial
    record (no bookmaker, no label). *)
Theorem find_best_odds_price_nonneg (md : MarketData) (ba bb : Best) :
  find_best_odds md = Ok (Some ba, Some bb) ->
  0 <= price ba /\ 0 <= price bb /\
  (price ba == 0 -> ba = zero_sentinel) /\
  (price bb == 0 -> bb = zero_sentinel).
Proof. apply find_best_odds_prices. Qed.

Lemma find_best_odds_price_nonneg_witness :
  exists ba bb,
    find_best_odds snapshot_zero_over = Ok (Some ba, Some bb) /\
    0 <= price ba /\ 0 <= price bb /\
    (price ba == 0 -> ba = zero_sentinel) /\
    (price bb == 0 -> bb = zero_sentinel).
Proof.
  eexists. eexists. split; [vm_compute; reflexivity|].
  apply (find_best_odds_price_nonneg snapshot_zero_over).
  vm_compute. reflexivity.
Defined.

Lemma ltb_asym (s1 s2 : string) :
  String.ltb s1 s2 = true -> String.ltb s2 s1 = false.
Proof.
  unfold String.ltb. rewrite (compare_antisym s1 s2).
  destruct (String.compare s2 s1); cbn; congruence.
Qed.

Lemma ordered_pair_unique (la lb la' lb' : string) :
  ({[ la; lb ]} : gset string) = {[ la'; lb' ]} ->
  String.ltb la lb = true -> String.ltb la' lb' = true ->
  la = la' /\ lb = lb'.
Proof.
  intros Hset Hlt Hlt'.
  assert (la ∈ ({[ la'; lb' ]} : gset string)) as Ha
    by (rewrite <- Hset; apply elem_of_union_l; now apply elem_of_singleton).
  assert (lb ∈ ({[ la'; lb' ]} : gset string)) as Hb
    by (rewrite <- Hset; apply elem_of_union_r; now apply elem_of_singleton).
  apply elem_of_union in Ha as [Ha|Ha]; apply elem_of_singleton in Ha;
    apply elem_of_union in Hb as [Hb|Hb]; apply elem_of_singleton in Hb;
    subst.
  - now apply ltb_neq in Hlt.
  - auto.
  - apply ltb_asym in Hlt. congruence.
  - now apply ltb_neq in Hlt.
Qed.

Lemma first_seen_max_attained qs label b :
  first_seen_max qs label b ->
  name b = label /\
  exists t o, (t, o) ∈ qs /\ o_name o = label /\ o_price o = price b /\
              t = book b.
Proof.
  intros (l1 & t & o & l2 & -> & Hn & -> & _).
  split; [reflexivity|]. exists t, o. split; [|auto].
  apply elem_of_app. right. apply list_elem_of_here.
Qed.

(** Two scans of the same quotes in different orders end on the same
    price and label. *)
Lemma best_for_perm qs qs' label b b' :
  qs ≡ₚ qs' -> best_for qs label b -> best_for qs' label b' ->
  price b == price b' /\ name b = name b'.
Proof.
  intros Hperm Hb Hb'.
  destruct Hb as [[-> Hall]|[Hmax Hpos]];
    destruct Hb' as [[-> Hall']|[Hmax' Hpos']].
  - split; reflexivity.
  - exfalso.
    destruct (first_seen_max_attained _ _ _ Hmax') as (_ & t & o & Hin & Hl & Hp & _).
    rewrite <- Hperm in Hin. pose proof (Hall t o Hin Hl) as Hle.
    rewrite Hp in Hle. lra.
  - exfalso.
    destruct (first_seen_max_attained _ _ _ Hmax) as (_ & t & o & Hin & Hl & Hp & _).
    rewrite Hperm in Hin. pose proof (Hall' t o Hin Hl) as Hle.
    rewrite Hp in Hle. lra.
  - destruct (first_seen_max_attained _ _ _ Hmax)
      as (Hn & t & o & Hin & Hl & Hp & _).
    destruct (first_seen_max_attained _ _ _ Hmax')
      as (Hn' & t' & o' & Hin' & Hl' & Hp' & _).
    split; [|congruence].
    rewrite Hperm in Hin. rewrite <- Hperm in Hin'.
    pose proof (first_seen_max_price_bound _ _ _ _ _ Hmax' Hin Hl) as H1.
    pose proof (first_seen_max_price_bound _ _ _ _ _ Hmax Hin' Hl') as H2.
    rewrite Hp in H1. rewrite Hp' in H2. lra.
Qed.

(** The best prices and their labels do not depend on the order in
    which bookmakers and outcomes are listed (only the bookmaker kept at
    a tie does). *)
Theorem find_best_odds_order_independent (md md' : MarketData) :
  quotes md ≡ₚ quotes md' ->
  (find_best_odds md = Ok (None, None) <->
   find_best_odds md' = Ok (None, None)) /\
  (forall ba bb, find_best_odds md = Ok (Some ba, Some bb) ->
     exists ba' bb',
       find_best_odds md' = Ok (Some ba', Some bb') /\
       price ba' == price ba /\ name ba' = name ba /\
       price bb' == price bb /\ name bb' = name bb).
Proof.
  intros Hperm.
  assert (distinct_labels md = distinct_labels md') as Hlabels.
  { unfold distinct_labels. apply list_to_set_perm_L.
    now apply Permutation_map. }
  split.
  - destruct (decide (size (distinct_labels md) = 2%nat)) as [Hsize|Hsize].
    + destruct (find_best_odds_two md Hsize) as (? & ? & _ & _ & Hsome).
      rewrite Hlabels in Hsize.
      destruct (find_best_odds_two md' Hsize) as (? & ? & _ & _ & Hsome').
      rewrite Hsome, Hsome'. split; discriminate.
    + rewrite (find_best_odds_not_two md Hsize).
      rewrite Hlabels in Hsize.
      rewrite (find_best_odds_not_two md' Hsize). tauto.
  - intros ba bb Hfind.
    destruct (find_best_odds_some_inv md ba bb Hfind)
      as (la & lb & Hset & Hlt & Ha & Hb).
    assert (size (distinct_labels md') = 2%nat) as Hsize.
    { rewrite <- Hlabels, Hset. apply size_union_alt_two.
      now apply ltb_neq. }
    destruct (find_best_odds_two md' Hsize)
      as (la' & lb' & Hset' & Hlt' & Hsome').
    rewrite <- Hlabels, Hset in Hset'.
    destruct (ordered_pair_unique _ _ _ _ Hset' Hlt Hlt') as [<- <-].
    eexists. eexists. split; [exact Hsome'|].
    destruct (best_for_perm _ _ la _ _ Hperm Ha (best_for_scan la (quotes md')))
      as [Hpa Hna].
    destruct (best_for_perm _ _ lb _ _ Hperm Hb (best_for_scan lb (quotes md')))
      as [Hpb Hnb].
    repeat split; (symmetry; assumption).
Qed.

Lemma find_best_odds_order_independent_witness :
  quotes snapshot_two_books ≡ₚ quotes snapshot_two_books_swapped /\
  forall ba bb, find_best_odds snapshot_two_books = Ok (Some ba, Some bb) ->
    exists ba' bb',
      find_best_odds snapshot_two_books_swapped = Ok (Some ba', Some bb') /\
      price ba' == price ba /\ name ba' = name ba /\
      price bb' == price bb /\ name bb' = name bb.
Proof.
  assert (quotes snapshot_two_books ≡ₚ quotes snapshot_two_books_swapped)
    as Hperm.
  { exact (Permutation_app_comm
             [("BookA"%string, mkOutcome "Over" 1.9);
              ("BookA"%string, mkOutcome "Under" 1.95)]
             [("BookB"%string, mkOutcome "Under" 2.05);
              ("BookB"%string, mkOutcome "Over" 1.9)]). }
  split; [exact Hperm|].
  exact (proj2 (find_best_odds_order_independent
                  snapshot_two_books snapshot_two_books_swapped Hperm)).
Defined.

(** * The per-game scan *)

(** ** The dictionary of results *)

Section DictFacts.
Context {V : Type}.
Implicit Types (d : list (string * V)) (k : string) (v : V).

Lemma dict_get_set_eq k v d : dict_get k (dict_set k v d) = Some v.
Proof.
  induction d as [|[k' v'] d IH]; cbn [dict_set dict_get].
  - now rewrite String.eqb_refl.
  - destruct (String.eqb_spec k' k) as [->|Hne]; cbn [dict_get].
    + now rewrite String.eqb_refl.
    + apply String.eqb_neq in Hne. now rewrite Hne.
Qed.

Lemma dict_get_set_ne k k' v d :
  k <> k' -> dict_get k' (dict_set k v d) = dict_get k' d.
Proof.
  intros Hne. induction d as [|[k0 v0] d IH]; cbn [dict_set dict_get].
  - apply String.eqb_neq in Hne. now rewrite Hne.
  - destruct (String.eqb_spec k0 k) as [->|Hne0]; cbn [dict_get].
    + apply String.eqb_neq in Hne. now rewrite Hne.
    + now rewrite IH.
Qed.

Lemma dict_set_elem_of k v d k' v' :
  (k', v') ∈ dict_set k v d -> (k' = k /\ v' = v) \/ (k', v') ∈ d.
Proof.
  induction d as [|[k0 v0] d IH]; cbn [dict_set]; intros Hin.
  - apply list_elem_of_singleton in Hin. injection Hin as -> ->. now left.
  - destruct (String.eqb k0 k).
    + apply elem_of_cons in Hin as [Hin|Hin].
      * injection Hin as -> ->. now left.
      * right. now apply list_elem_of_further.
    + apply elem_of_cons in Hin as [Hin|Hin].
      * right. rewrite Hin. apply list_elem_of_here.
      * destruct (IH Hin) as [?|?]; [now left|].
        right. now apply list_elem_of_further.
Qed.

End DictFacts.

(** ** The snapshot of one market *)

Lemma fold_left_append_flat_map {A B : Type} (h : A -> list B)
    (l : list A) (acc : list B) :
  fold_left (fun acc x => acc ++ h x) l acc = acc ++ flat_map h l.
Proof.
  revert acc. induction l as [|x l IH]; intros acc; cbn [fold_left flat_map].
  - now rewrite app_nil_r.
  - rewrite IH. now rewrite app_assoc.
Qed.

Lemma market_data_for_books (g : Game) (market_key : string) :
  md_bookmakers (market_data_for g market_key) =
  flat_map (book_for market_key) (bookmakers g).
Proof.
  unfold market_data_for. cbn [md_bookmakers].
  rewrite <- (app_nil_l (flat_map _ _)).
  rewrite <- fold_left_append_flat_map.
  apply fold_left_ext_eq. intros acc book. unfold book_for.
  destruct (find _ _); [reflexivity|now rewrite app_nil_r].
Qed.

(** Every quote of the snapshot of a market is an outcome that a
    bookmaker of the game lists under that market key. *)
Lemma market_data_for_quotes (g : Game) (market_key t : string) (o : Outcome) :
  (t, o) ∈ quotes (market_data_for g market_key) ->
  quoted_in g market_key t o.
Proof.
  unfold quotes. rewrite market_data_for_books.
  intros Hin. apply list_elem_of_In, in_flat_map in Hin as (b' & Hb' & Hin).
  apply in_flat_map in Hb' as (book & Hbook & Hb').
  unfold book_for in Hb'.
  destruct (find _ (bk_markets book)) as [m|] eqn:Hfind; [|destruct Hb'].
  destruct Hb' as [<-|[]]. cbn [bk_markets title flat_map] in Hin.
  rewrite app_nil_r in Hin. apply in_map_iff in Hin as (o' & Heq & Ho).
  injection Heq as <- <-.
  apply find_some in Hfind as [Hm Hkey]. apply String.eqb_eq in Hkey.
  exists book, m. repeat split; try assumption; now apply list_elem_of_In.
Qed.

(** ** One market of one game *)


(** The two ways an iteration of the loop of [scan_game_markets] ends
    without an exception: the market is skipped, or it is stored. *)
Lemma scan_market_inv (g : Game) (total_budget : Q)
    (d d' : list (string * MarketResult)) (market_key market_name : string) :
  scan_market g total_budget d (market_key, market_name) = Ok d' ->
  (d' = d /\
   (md_bookmakers (market_data_for g market_key) = [] \/
    find_best_odds (market_data_for g market_key) = Ok (None, None) \/
    exists ba bb,
      find_best_odds (market_data_for g market_key) = Ok (Some ba, Some bb) /\
      price ba == 0)) \/
  (exists ba bb arb_result,
     md_bookmakers (market_data_for g market_key) <> [] /\
     find_best_odds (market_data_for g market_key) = Ok (Some ba, Some bb) /\
     ~ price ba == 0 /\
     calculate_stakes total_budget (price ba) (price bb) = Ok arb_result /\
     d' = dict_set market_name
            {| best_a := ba; best_b := bb; arb := arb_result |} d).
Proof.
  unfold scan_market. intros Hscan.
  destruct (md_bookmakers (market_data_for g market_key)) as [|b0 bs] eqn:Hbooks.
  { injection Hscan as <-. left. auto. }
  destruct (find_best_odds_cases (market_data_for g market_key))
    as [Hnone|(ba & bb & Hsome)].
  { rewrite Hnone in Hscan. cbn [mbind exc_bind mret exc_ret] in Hscan.
    injection Hscan as <-. left. auto. }
  rewrite Hsome in Hscan. cbn [mbind exc_bind mret exc_ret] in Hscan.
  destruct (Qeq_bool (price ba) 0) eqn:Hzero.
  { injection Hscan as <-. apply Qeq_bool_iff in Hzero. left.
    split; [reflexivity|]. right. right. eauto. }
  destruct (calculate_stakes total_budget (price ba) (price bb))
    as [e|arb_result] eqn:Hcalc; [discriminate|].
  cbn [mbind exc_bind mret exc_ret] in Hscan. injection Hscan as <-.
  right. exists ba, bb, arb_result.
  split; [discriminate|]. split; [exact Hsome|].
  split; [|split; [exact Hcalc|reflexivity]].
  intros Hz. apply Qeq_bool_iff in Hz. congruence.
Qed.



Lemma for_each_invariant_in {A S : Type} (P : S -> Prop)
    (body : S -> A -> exc S) (l : list A) (s s' : S) :
  (forall s x s', x ∈ l -> P s -> body s x = Ok s' -> P s') ->
  P s -> for_each body l s = Ok s' -> P s'.
Proof.
  revert s. induction l as [|x l IH]; intros s Hstep Hs Hrun.
  - cbn in Hrun. now injection Hrun as <-.
  - cbn [for_each] in Hrun. destruct (body s x) as [e|s1] eqn:Hbody;
      [discriminate|].
    cbn [mbind exc_bind] in Hrun. apply (IH s1); [| |exact Hrun].
    + intros s0 y s0' Hy. apply Hstep. now apply list_elem_of_further.
    + apply (Hstep s x s1); [apply list_elem_of_here|exact Hs|exact Hbody].
Qed.

Lemma for_each_app {A S : Type} (body : S -> A -> exc S) (l1 l2 : list A)
    (s : S) :
  for_each body (l1 ++ l2) s = (s' ← for_each body l1 s; for_each body l2 s').
Proof.
  revert s. induction l1 as [|x l1 IH]; intros s; [reflexivity|].
  cbn [app for_each]. destruct (body s x) as [e|s1]; [reflexivity|].
  cbn [mbind exc_bind]. apply IH.
Qed.

Lemma scan_game_markets_inv (g : Game) (ms : list (string * string))
    (total_budget : Q) (r : GameResults) :
  scan_game_markets g ms total_budget = Ok r ->
  game r = game_label g /\
  for_each (scan_market g total_budget) ms [] = Ok (markets r).
Proof.
  unfold scan_game_markets. intros Hscan.
  destruct (for_each _ ms []) as [e|d]; [discriminate|].
  cbn [mbind exc_bind mret exc_ret] in Hscan. injection Hscan as <-.
  split; reflexivity.
Qed.

(** ** What the results of a game hold *)

Lemma scan_game_markets_entries (g : Game) (ms : list (string * string))
    (total_budget : Q) (r : GameResults) :
  scan_game_markets g ms total_budget = Ok r ->
  forall market_name e, (market_name, e) ∈ markets r ->
  exists market_key,
    (market_key, market_name) ∈ ms /\
    md_bookmakers (market_data_for g market_key) <> [] /\
    find_best_odds (market_data_for g market_key)
      = Ok (Some (best_a e), Some (best_b e)) /\
    0 < price (best_a e) /\
    calculate_stakes total_budget (price (best_a e)) (price (best_b e))
      = Ok (arb e).
Proof.
  intros Hscan. apply scan_game_markets_inv in Hscan as [_ Hloop].
  revert Hloop.
  apply (for_each_invariant_in
           (fun d => forall market_name e, (market_name, e) ∈ d ->
              exists market_key,
                (market_key, market_name) ∈ ms /\
                md_bookmakers (market_data_for g market_key) <> [] /\
                find_best_odds (market_data_for g market_key)
                  = Ok (Some (best_a e), Some (best_b e)) /\
                0 < price (best_a e) /\
                calculate_stakes total_budget (price (best_a e))
                                 (price (best_b e)) = Ok (arb e))).
  - intros d [key name] d' Hin Hd Hstep n e He.
    apply scan_market_inv in Hstep
      as [[-> _]|(ba & bb & arb_result & Hbooks & Hfind & Hnz & Hcalc & ->)];
      [now apply Hd|].
    apply dict_set_elem_of in He as [[-> ->]|He]; [|now apply Hd].
    exists key. cbn [best_a best_b arb].
    repeat (split; [assumption|]). split; [|assumption].
    destruct (find_best_odds_prices _ _ _ Hfind) as (Hge & _).
    destruct (Qlt_le_dec 0 (price ba)) as [?|Hle]; [assumption|].
    exfalso. apply Hnz. lra.
  - intros n e He. now apply elem_of_nil in He.
Qed.

(** Whatever [scan_game_markets] stores under a market name is what
    [find_best_odds] returns on the snapshot of a requested market with
    that name, has a price above 0 on outcome A, and carries the answer
    of [calculate_stakes] on its two prices for the budget of the call. *)
Theorem scan_game_markets_sound (g : Game) (ms : list (string * string))
    (total_budget : Q) (r : GameResults) :
  scan_game_markets g ms total_budget = Ok r ->
  forall market_name e, (market_name, e) ∈ markets r ->
  exists market_key,
    (market_key, market_name) ∈ ms /\
    md_bookmakers (market_data_for g market_key) <> [] /\
    find_best_odds (market_data_for g market_key)
      = Ok (Some (best_a e), Some (best_b e)) /\
    0 < price (best_a e) /\
    calculate_stakes total_budget (price (best_a e)) (price (best_b e))
      = Ok (arb e).
Proof. apply scan_game_markets_entries. Qed.

Lemma best_for_quoted (g : Game) (market_key label : string) (b : Best) :
  best_for (quotes (market_data_for g market_key)) label b ->
  0 < price b ->
  name b = label /\
  exists o, quoted_in g market_key (book b) o /\
            o_name o = name b /\ o_price o = price b.
Proof.
  intros [[-> _]|[Hmax _]] Hpos; [cbn in Hpos; lra|].
  destruct (first_seen_max_attained _ _ _ Hmax)
    as (Hn & t & o & Hin & Hl & Hp & ->).
  split; [exact Hn|]. exists o. split; [|split; [congruence|exact Hp]].
  now apply market_data_for_quotes.
Qed.

(** A stored best price is genuine: the bookmaker recorded with it is a
    bookmaker of the game that lists, in a market entry with the
    requested key, the recorded outcome at exactly this price.  This
    holds for outcome A of every stored market, and for outcome B when
    its price is above 0. *)
Theorem scan_game_markets_best_quoted (g : Game) (ms : list (string * string))
    (total_budget : Q) (r : GameResults) :
  scan_game_markets g ms total_budget = Ok r ->
  forall market_name e, (market_name, e) ∈ markets r ->
  exists market_key,
    (market_key, market_name) ∈ ms /\
    (exists o, quoted_in g market_key (book (best_a e)) o /\
               o_name o = name (best_a e) /\ o_price o = price (best_a e)) /\
    (0 < price (best_b e) ->
     exists o, quoted_in g market_key (book (best_b e)) o /\
               o_name o = name (best_b e) /\ o_price o = price (best_b e)).
Proof.
  intros Hscan n e He.
  destruct (scan_game_markets_entries g ms total_budget r Hscan n e He)
    as (key & Hkey & _ & Hfind & Hpos & _).
  exists key. split; [exact Hkey|].
  destruct (find_best_odds_some_inv _ _ _ Hfind) as (la & lb & _ & _ & Ha & Hb).
  split.
  - now apply (best_for_quoted g key la).
  - intros Hposb. now apply (best_for_quoted g key lb).
Qed.

Lemma scan_game_markets_sound_witness :
  exists r e,
    scan_game_markets game_two_books BestLines.FEATURED_MARKETS 500 = Ok r /\
    ("Game Total O/U"%string, e) ∈ markets r /\
    exists market_key,
      (market_key, "Game Total O/U"%string) ∈ BestLines.FEATURED_MARKETS /\
      md_bookmakers (market_data_for game_two_books market_key) <> [] /\
      find_best_odds (market_data_for game_two_books market_key)
        = Ok (Some (best_a e), Some (best_b e)) /\
      0 < price (best_a e) /\
      calculate_stakes 500 (price (best_a e)) (price (best_b e))
        = Ok (arb e).
Proof.
  eexists. eexists. split; [vm_compute; reflexivity|].
  split; [apply list_elem_of_further, list_elem_of_here|].
  eapply (scan_game_markets_sound game_two_books BestLines.FEATURED_MARKETS 500);
    [vm_compute; reflexivity|apply list_elem_of_further, list_elem_of_here].
Defined.

Lemma scan_game_markets_best_quoted_witness :
  exists r e,
    scan_game_markets game_two_books BestLines.FEATURED_MARKETS 500 = Ok r /\
    ("Game Total O/U"%string, e) ∈ markets r /\
    exists market_key,
      (market_key, "Game Total O/U"%string) ∈ BestLines.FEATURED_MARKETS /\
      (exists o, quoted_in game_two_books market_key (book (best_a e)) o /\
                 o_name o = name (best_a e) /\
                 o_price o = price (best_a e)) /\
      (0 < price (best_b e) ->
       exists o, quoted_in game_two_books market_key (book (best_b e)) o /\
                 o_name o = name (best_b e) /\
                 o_price o = price (best_b e)).
Proof.
  eexists. eexists. split; [vm_compute; reflexivity|].
  split; [apply list_elem_of_further, list_elem_of_here|].
  eapply (scan_game_markets_best_quoted game_two_books
            BestLines.FEATURED_MARKETS 500);
    [vm_compute; reflexivity|apply list_elem_of_further, list_elem_of_here].
Defined.

(** ** Looking a requested market up in the results *)

Lemma scan_market_get_other (g : Game) (total_budget : Q)
    (d d' : list (string * MarketResult)) (m : string * string) (n : string) :
  scan_market g total_budget d m = Ok d' -> snd m <> n ->
  dict_get n d' = dict_get n d.
Proof.
  destruct m as [key name]. cbn [snd]. intros Hstep Hne.
  apply scan_market_inv in Hstep as [[-> _]|(ba & bb & a & _ & _ & _ & _ & ->)];
    [reflexivity|].
  now apply dict_get_set_ne.
Qed.

Lemma for_each_get_other (g : Game) (total_budget : Q)
    (l : list (string * string)) (d d' : list (string * MarketResult))
    (n : string) :
  n ∉ map snd l ->
  for_each (scan_market g total_budget) l d = Ok d' ->
  dict_get n d' = dict_get n d.
Proof.
  intros Hnotin.
  apply (for_each_invariant_in (fun s => dict_get n s = dict_get n d));
    [|reflexivity].
  intros s m s' Hm Hs Hstep. rewrite <- Hs.
  apply (scan_market_get_other g total_budget s s' m n Hstep).
  intros <-. apply Hnotin. apply list_elem_of_In, in_map.
  now apply list_elem_of_In.
Qed.

(** With market names all different, what the results hold under the
    name of a requested market is decided by the iteration for that
    market alone. *)
Lemma scan_game_markets_get (g : Game) (ms : list (string * string))
    (total_budget : Q) (r : GameResults) (market_key market_name : string) :
  NoDup (map snd ms) -> (market_key, market_name) ∈ ms ->
  scan_game_markets g ms total_budget = Ok r ->
  (dict_get market_name (markets r) = None /\
   (md_bookmakers (market_data_for g market_key) = [] \/
    find_best_odds (market_data_for g market_key) = Ok (None, None) \/
    exists ba bb,
      find_best_odds (market_data_for g market_key) = Ok (Some ba, Some bb) /\
      price ba == 0)) \/
  (exists ba bb arb_result,
     md_bookmakers (market_data_for g market_key) <> [] /\
     find_best_odds (market_data_for g market_key) = Ok (Some ba, Some bb) /\
     ~ price ba == 0 /\
     calculate_stakes total_budget (price ba) (price bb) = Ok arb_result /\
     dict_get market_name (markets r) =
       Some {| best_a := ba; best_b := bb; arb := arb_result |}).
Proof.
  intros Hnodup Hin Hscan.
  apply scan_game_markets_inv in Hscan as [_ Hloop].
  apply list_elem_of_split in Hin as (l1 & l2 & ->).
  rewrite map_app in Hnodup. cbn [map snd] in Hnodup.
  apply NoDup_app in Hnodup as (_ & Hl1 & Hnodup).
  apply NoDup_cons in Hnodup as [Hl2 _].
  assert (market_name ∉ map snd l1) as Hl1'.
  { intros H. apply (Hl1 _ H). apply list_elem_of_here. }
  rewrite for_each_app in Hloop.
  destruct (for_each _ l1 []) as [e|d1] eqn:Hrun1; [discriminate|].
  cbn [mbind exc_bind for_each] in Hloop.
  destruct (scan_market g total_budget d1 (market_key, market_name))
    as [e|d2] eqn:Hstep; [discriminate|].
  cbn [mbind exc_bind] in Hloop.
  pose proof (for_each_get_other _ _ _ _ _ _ Hl1' Hrun1) as Hget1.
  pose proof (for_each_get_other _ _ _ _ _ _ Hl2 Hloop) as Hget2.
  cbn [dict_get] in Hget1. rewrite Hget2.
  apply scan_market_inv in Hstep
    as [[-> Hskip]|(ba & bb & a & Hbooks & Hfind & Hnz & Hcalc & ->)].
  - left. split; assumption.
  - right. exists ba, bb, a. repeat (split; [assumption|]).
    apply dict_get_set_eq.
Qed.

(** With market names all different, a requested market that at least
    one bookmaker quotes, with two outcome labels and a price other than
    0 on outcome A, is found in the results under its name, with these
    two records and the answer of [calculate_stakes]. *)
Theorem scan_game_markets_stores (g : Game) (ms : list (string * string))
    (total_budget : Q) (r : GameResults) (market_key market_name : string)
    (ba bb : Best) :
  NoDup (map snd ms) -> (market_key, market_name) ∈ ms ->
  scan_game_markets g ms total_budget = Ok r ->
  md_bookmakers (market_data_for g market_key) <> [] ->
  find_best_odds (market_data_for g market_key) = Ok (Some ba, Some bb) ->
  ~ price ba == 0 ->
  exists arb_result,
    calculate_stakes total_budget (price ba) (price bb) = Ok arb_result /\
    dict_get market_name (markets r) =
      Some {| best_a := ba; best_b := bb; arb := arb_result |}.
Proof.
  intros Hnodup Hin Hscan Hbooks Hfind Hnz.
  destruct (scan_game_markets_get g ms total_budget r market_key market_name
              Hnodup Hin Hscan)
    as [[_ [H|[H|(ba' & bb' & H & Hz)]]]|
        (ba' & bb' & a & _ & Hfind' & _ & Hcalc & Hget)].
  - contradiction.
  - rewrite H in Hfind. discriminate.
  - rewrite H in Hfind. injection Hfind as <- <-. contradiction.
  - rewrite Hfind' in Hfind. injection Hfind as <- <-. eauto.
Qed.

(** With market names all different, a requested market is missing from
    the results exactly when no bookmaker of the game quotes it, or its
    quotes do not carry exactly two labels, or the best price found for
    outcome A is 0. *)
Theorem scan_game_markets_skips (g : Game) (ms : list (string * string))
    (total_budget : Q) (r : GameResults) (market_key market_name : string) :
  NoDup (map snd ms) -> (market_key, market_name) ∈ ms ->
  scan_game_markets g ms total_budget = Ok r ->
  (dict_get market_name (markets r) = None <->
   md_bookmakers (market_data_for g market_key) = [] \/
   size (distinct_labels (market_data_for g market_key)) <> 2%nat \/
   exists ba bb,
     find_best_odds (market_data_for g market_key) = Ok (Some ba, Some bb) /\
     price ba == 0).
Proof.
  intros Hnodup Hin Hscan.
  destruct (scan_game_markets_get g ms total_budget r market_key market_name
              Hnodup Hin Hscan)
    as [[Hget Hskip]|(ba & bb & a & Hbooks & Hfind & Hnz & _ & Hget)].
  - split; [intros _|intros _; exact Hget].
    destruct Hskip as [H|[H|H]]; [auto| |auto].
    right. left. intros Hsize.
    destruct (find_best_odds_two _ Hsize) as (? & ? & _ & _ & Hsome).
    rewrite Hsome in H. discriminate.
  - rewrite Hget. split; [discriminate|].
    intros [H|[H|(ba' & bb' & H & Hz)]]; exfalso.
    + contradiction.
    + rewrite (find_best_odds_not_two _ H) in Hfind. discriminate.
    + rewrite H in Hfind. injection Hfind as <- <-. contradiction.
Qed.

Ltac decide_by_compute :=
  refine (bool_decide_unpack _ _); vm_compute; exact I.

Lemma scan_game_markets_stores_witness :
  exists r ba bb,
    NoDup (map snd BestLines.FEATURED_MARKETS) /\
    ("totals", "Game Total O/U")%string ∈ BestLines.FEATURED_MARKETS /\
    scan_game_markets game_two_books BestLines.FEATURED_MARKETS 500 = Ok r /\
    md_bookmakers (market_data_for game_two_books "totals") <> [] /\
    find_best_odds (market_data_for game_two_books "totals")
      = Ok (Some ba, Some bb) /\
    ~ price ba == 0 /\
    exists arb_result,
      calculate_stakes 500 (price ba) (price bb) = Ok arb_result /\
      dict_get "Game Total O/U" (markets r) =
        Some {| best_a := ba; best_b := bb; arb := arb_result |}.
Proof.
  assert (NoDup (map snd BestLines.FEATURED_MARKETS)) as Hnodup
    by decide_by_compute.
  assert (("totals", "Game Total O/U")%string ∈ BestLines.FEATURED_MARKETS)
    as Hin by decide_by_compute.
  eexists. eexists. eexists.
  split; [exact Hnodup|]. split; [exact Hin|].
  split; [vm_compute; reflexivity|].
  split; [vm_compute; discriminate|].
  split; [vm_compute; reflexivity|].
  split; [vm_compute; discriminate|].
  eapply (scan_game_markets_stores game_two_books BestLines.FEATURED_MARKETS
            500 _ "totals" "Game Total O/U");
    [exact Hnodup|exact Hin|vm_compute; reflexivity|vm_compute; discriminate|
     vm_compute; reflexivity|vm_compute; discriminate].
Defined.

Lemma scan_game_markets_skips_witness :
  exists r,
    NoDup (map snd BestLines.FEATURED_MARKETS) /\
    ("spreads", "Point Spread")%string ∈ BestLines.FEATURED_MARKETS /\
    scan_game_markets game_two_books BestLines.FEATURED_MARKETS 500 = Ok r /\
    (dict_get "Point Spread" (markets r) = None <->
     md_bookmakers (market_data_for game_two_books "spreads") = [] \/
     size (distinct_labels (market_data_for game_two_books "spreads"))
       <> 2%nat \/
     exists ba bb,
       find_best_odds (market_data_for game_two_books "spreads")
         = Ok (Some ba, Some bb) /\
       price ba == 0).
Proof.
  assert (NoDup (map snd BestLines.FEATURED_MARKETS)) as Hnodup
    by decide_by_compute.
  assert (("spreads", "Point Spread")%string ∈ BestLines.FEATURED_MARKETS)
    as Hin by decide_by_compute.
  eexists. split; [exact Hnodup|]. split; [exact Hin|].
  split; [vm_compute; reflexivity|].
  apply (scan_game_markets_skips game_two_books BestLines.FEATURED_MARKETS
           500 _ "spreads" "Point Spread" Hnodup Hin).
  vm_compute. reflexivity.
Defined.

(** ** Exceptions of the scan *)




(** ** The two scanners side by side *)

Lemma strip_arbs_dict_set (k : string) (e : MarketResult)
    (d : list (string * MarketResult)) :
  strip_arbs (dict_set k e d) = dict_set k (strip_arb e) (strip_arbs d).
Proof.
  induction d as [|[k' e'] d IH]; [reflexivity|].
  cbn [dict_set strip_arbs map fst snd].
  destruct (String.eqb k' k); [reflexivity|].
  cbn [map fst snd]. f_equal. exact IH.
Qed.


Lemma scan_market_strip (g : Game) (total_budget : Q)
    (d d' : list (string * MarketResult)) (m : string * string) :
  scan_market g total_budget d m = Ok d' ->
  BestLines.scan_market g (strip_arbs d) m = Ok (strip_arbs d').
Proof.
  destruct m as [market_key market_name]. intros Hstep.
  unfold BestLines.scan_market.
  apply scan_market_inv in Hstep
    as [[-> Hskip]|(ba & bb & a & Hbooks & Hfind & Hnz & _ & ->)].
  - destruct (md_bookmakers (market_data_for g market_key)) eqn:Hbooks;
      [reflexivity|].
    destruct Hskip as [H|[H|(ba & bb & H & Hz)]]; [discriminate| |];
      rewrite H; cbn [mbind exc_bind mret exc_ret]; [reflexivity|].
    apply Qeq_bool_iff in Hz. now rewrite Hz.
  - destruct (md_bookmakers (market_data_for g market_key));
      [contradiction|].
    rewrite Hfind. cbn [mbind exc_bind mret exc_ret].
    destruct (Qeq_bool (price ba) 0) eqn:Hz;
      [apply Qeq_bool_iff in Hz; contradiction|].
    now rewrite strip_arbs_dict_set.
Qed.

Lemma for_each_strip (g : Game) (total_budget : Q) (ms : list (string * string))
    (d d' : list (string * MarketResult)) :
  for_each (scan_market g total_budget) ms d = Ok d' ->
  for_each (BestLines.scan_market g) ms (strip_arbs d) = Ok (strip_arbs d').
Proof.
  revert d. induction ms as [|m ms IH]; intros d Hrun.
  - cbn in Hrun |- *. now injection Hrun as <-.
  - cbn [for_each] in Hrun |- *.
    destruct (scan_market g total_budget d m) as [e|d1] eqn:Hstep;
      [discriminate|].
    rewrite (scan_market_strip _ _ _ _ _ Hstep).
    cbn [mbind exc_bind] in Hrun |- *. now apply IH.
Qed.



(** The stripped-down scanner of best_lines.py stores, for the same game
    and markets, exactly the best prices the arbitrage scanner of
    prop_arb_scanner.py stores: the same market names in the same order
    with the same two records, without the arbitrage result. *)
Theorem scan_game_markets_agree (g : Game) (ms : list (string * string))
    (total_budget : Q) (r : GameResults) :
  scan_game_markets g ms total_budget = Ok r ->
  BestLines.scan_game_markets g ms =
    Ok {| BestLines.game := game r;
          BestLines.markets := strip_arbs (markets r) |}.
Proof.
  intros Hscan. apply scan_game_markets_inv in Hscan as [Hgame Hloop].
  unfold BestLines.scan_game_markets.
  change (@nil (string * BestLines.MarketResult)) with (strip_arbs []).
  rewrite (for_each_strip _ _ _ _ _ Hloop).
  cbn [mbind exc_bind mret exc_ret]. now rewrite Hgame.
Qed.

Lemma scan_game_markets_agree_witness :
  exists r,
    scan_game_markets game_two_books BestLines.FEATURED_MARKETS 500 = Ok r /\
    BestLines.scan_game_markets game_two_books BestLines.FEATURED_MARKETS =
      Ok {| BestLines.game := game r;
            BestLines.markets := strip_arbs (markets r) |}.
Proof.
  eexists. split; [vm_compute; reflexivity|].
  apply (scan_game_markets_agree game_two_books BestLines.FEATURED_MARKETS 500).
  vm_compute. reflexivity.
Defined.

(** * Collecting and ranking the games of a feed *)

Lemma collect_results_loop (total_budget : Q) (gd : list Game)
    (acc out : list GameResults) :
  for_each (fun all_game_results g =>
      results ← scan_game_markets g FEATURED_MARKETS total_budget;
      match markets results with
      | [] => mret all_game_results
      | _ :: _ => mret (all_game_results ++ [results])
      end) gd acc = Ok out ->
  exists gs rs,
    out = acc ++ rs /\
    gs `sublist_of` gd /\
    scans_of total_budget gs rs /\
    Forall (fun r => markets r <> []) rs /\
    (forall g r, g ∈ gd ->
       scan_game_markets g FEATURED_MARKETS total_budget = Ok r ->
       markets r <> [] -> r ∈ rs).
Proof.
  revert acc. induction gd as [|g gd IH]; intros acc Hrun.
  - cbn in Hrun. injection Hrun as <-. exists [], [].
    rewrite app_nil_r. repeat split; try constructor.
    intros g r Hg. now apply elem_of_nil in Hg.
  - cbn [for_each] in Hrun.
    destruct (scan_game_markets g FEATURED_MARKETS total_budget)
      as [e|res] eqn:Hscan; [discriminate|].
    cbn [mbind exc_bind] in Hrun.
    destruct (markets res) as [|m0 ms0] eqn:Hms;
      cbn [mret exc_ret mbind exc_bind] in Hrun;
      destruct (IH _ Hrun) as (gs & rs & -> & Hsub & Hscans & Hne & Hall).
    + exists gs, rs. split; [reflexivity|].
      split; [now apply sublist_cons|]. split; [exact Hscans|].
      split; [exact Hne|].
      intros g' r' Hg' Hscan' Hne'.
      apply elem_of_cons in Hg' as [->|Hg']; [|eauto].
      rewrite Hscan in Hscan'. injection Hscan' as <-. congruence.
    + exists (g :: gs), (res :: rs).
      split; [now rewrite <- app_assoc|].
      split; [now apply sublist_skip|].
      split; [now constructor|].
      split; [constructor; [congruence|exact Hne]|].
      intros g' r' Hg' Hscan' Hne'.
      apply elem_of_cons in Hg' as [->|Hg'].
      * rewrite Hscan in Hscan'. injection Hscan' as <-.
        apply list_elem_of_here.
      * apply list_elem_of_further. eauto.
Qed.

(** [run_scanner] keeps, in the order of the feed, the results of
    exactly the games for which at least one market was stored: every
    kept result has a market, is the scan of a game of the feed, and no
    game with a stored market is left out. *)
Theorem collect_results_keeps_games_with_markets (game_data : list Game)
    (total_budget : Q) (all_game_results : list GameResults) :
  collect_results game_data total_budget = Ok all_game_results ->
  Forall (fun r => markets r <> []) all_game_results /\
  (exists gs, gs `sublist_of` game_data /\
              scans_of total_budget gs all_game_results) /\
  (forall g r, g ∈ game_data ->
     scan_game_markets g FEATURED_MARKETS total_budget = Ok r ->
     markets r <> [] -> r ∈ all_game_results).
Proof.
  intros Hcollect. unfold collect_results in Hcollect.
  destruct (collect_results_loop _ _ _ _ Hcollect)
    as (gs & rs & -> & Hsub & Hscans & Hne & Hall).
  cbn [app]. split; [exact Hne|]. split; [eauto|exact Hall].
Qed.

Lemma collect_results_keeps_games_with_markets_witness :
  exists rs,
    collect_results feed_two_games 500 = Ok rs /\
    Forall (fun r => markets r <> []) rs /\
    (exists gs, gs `sublist_of` feed_two_games /\ scans_of 500 gs rs) /\
    (forall g r, g ∈ feed_two_games ->
       scan_game_markets g FEATURED_MARKETS 500 = Ok r ->
       markets r <> [] -> r ∈ rs).
Proof.
  eexists. split; [vm_compute; reflexivity|].
  apply (collect_results_keeps_games_with_markets feed_two_games 500).
  vm_compute. reflexivity.
Defined.






(** * Cache and network *)

Lemma fetch_new_spec (env : Env) (featured : list (string * string))
    (self : Scanner) (w : World) :
  exists data w',
    fetch_new env featured self w = (data, w') /\
    requests w' =
      requests w ++ [(base_odds_url self, request_params featured self)] /\
    data = match requests_get env (length (requests w)) (base_odds_url self)
                              (request_params featured self) with
           | Response status_code json _ =>
               if Z.eqb status_code 200 then Some json else None
           | RequestException _ => None
           end /\
    files w' = match data with
               | Some (g :: gs) =>
                   <[ sport_cache_file self := json_dump env (g :: gs) ]>
                     (files w)
               | _ => files w
               end.
Proof.
  unfold fetch_new, get_api_response.
  change (dict_update _ _) with (request_params featured self).
  cbn [print requests].
  destruct (requests_get env (length (requests w)) (base_odds_url self)
                         (request_params featured self))
    as [status_code json text|e].
  - destruct (Z.eqb status_code 200).
    + destruct json as [|g gs]; eexists; eexists;
        (split; [reflexivity|]); cbn; auto.
    + eexists; eexists; (split; [reflexivity|]); cbn; auto.
  - eexists; eexists; (split; [reflexivity|]); cbn; auto.
Qed.

(** The three ways [fetch_or_load_data] goes. *)
Lemma fetch_or_load_data_cases (env : Env) (featured : list (string * string))
    (self : Scanner) (force_new_call : bool) (w : World) :
  (force_new_call = false /\ files w !! sport_cache_file self = None /\
   fetch_or_load_data env featured self force_new_call w = (None, w)) \/
  (force_new_call = false /\
   (exists content data,
      files w !! sport_cache_file self = Some content /\
      json_load env content = Some data /\
      fetch_or_load_data env featured self force_new_call w =
        (Some data,
         print [ LoadingFromCache (sport_emoji self) (sport_key self)
                                  (sport_cache_file self) ] w))) \/
  ((force_new_call = true \/ cache_unreadable env self w) /\
   exists w0,
     files w0 = files w /\ requests w0 = requests w /\
     fetch_or_load_data env featured self force_new_call w =
       fetch_new env featured self w0).
Proof.
  unfold fetch_or_load_data, try_cache, cache_unreadable.
  destruct (files w !! sport_cache_file self) as [content|] eqn:Hfile.
  - destruct force_new_call; cbn [negb].
    + right. right. split; [now left|]. exists w. auto.
    + destruct (json_load env content) as [data|] eqn:Hload.
      * right. left. split; [reflexivity|]. exists content, data. auto.
      * right. right. split; [right; eauto|].
        eexists. split; [|split; [|reflexivity]]; reflexivity.
  - destruct force_new_call.
    + right. right. split; [now left|]. exists w. auto.
    + left. auto.
Qed.

(** [fetch_or_load_data] sends one request, with the markets of the
    file, the key, region [us] and decimal odds, when the call is forced
    or the cache file of the sport is there but unreadable.  Otherwise
    it sends nothing and leaves the files alone; with no cache file it
    returns [None] and changes nothing at all. *)
Theorem fetch_or_load_data_requests (env : Env)
    (featured : list (string * string)) (self : Scanner)
    (force_new_call : bool) (w : World) :
  let res := fetch_or_load_data env featured self force_new_call w in
  (force_new_call = true \/ cache_unreadable env self w ->
   requests (snd res) =
     requests w ++ [(base_odds_url self, request_params featured self)]) /\
  (force_new_call = false -> ~ cache_unreadable env self w ->
   requests (snd res) = requests w /\ files (snd res) = files w /\
   (files w !! sport_cache_file self = None -> res = (None, w))).
Proof.
  cbn zeta.
  destruct (fetch_or_load_data_cases env featured self force_new_call w)
    as [(Hf & Hnone & ->)|[(Hf & c & d & Hfile & Hload & ->)|
        (Hcond & w0 & Hfiles & Hreqs & ->)]].
  - split.
    + intros [H|(c & Hc & _)]; congruence.
    + intros _ _. cbn [snd]. auto.
  - split.
    + intros [H|(c' & Hc & Hl)]; congruence.
    + intros _ _. cbn [snd print requests files].
      split; [reflexivity|]. split; [reflexivity|]. congruence.
  - destruct (fetch_new_spec env featured self w0)
      as (data & w' & -> & Hrequests & _).
    cbn [snd]. split.
    + intros _. now rewrite Hrequests, Hreqs.
    + intros Hf Hnot. destruct Hcond as [?|?]; [congruence|contradiction].
Qed.

Lemma fetch_or_load_data_requests_witness :
  let res := fetch_or_load_data sample_env FEATURED_MARKETS sample_scanner
                                false world_with_key in
  (false = true \/ cache_unreadable sample_env sample_scanner world_with_key) /\
  requests (snd res) =
    requests world_with_key ++
    [(base_odds_url sample_scanner,
      request_params FEATURED_MARKETS sample_scanner)].
Proof.
  cbn zeta.
  assert (cache_unreadable sample_env sample_scanner world_with_key) as Hbad.
  { exists "{oops"%string. split; vm_compute; reflexivity. }
  split; [right; exact Hbad|].
  apply (proj1 (fetch_or_load_data_requests sample_env FEATURED_MARKETS
                  sample_scanner false world_with_key)).
  right. exact Hbad.
Defined.

(** [fetch_or_load_data] never touches another file than the cache file
    of its sport, and it rewrites that one only with the dump of a
    non-empty feed it returns; when it returns [None] or an empty feed,
    no file has changed. *)
Theorem fetch_or_load_data_files (env : Env)
    (featured : list (string * string)) (self : Scanner)
    (force_new_call : bool) (w : World) :
  let res := fetch_or_load_data env featured self force_new_call w in
  (forall path, path <> sport_cache_file self ->
     files (snd res) !! path = files w !! path) /\
  (files (snd res) = files w \/
   exists g gs, fst res = Some (g :: gs) /\
     files (snd res) =
       <[ sport_cache_file self := json_dump env (g :: gs) ]> (files w)) /\
  (fst res = None \/ fst res = Some [] -> files (snd res) = files w).
Proof.
  cbn zeta.
  destruct (fetch_or_load_data_cases env featured self force_new_call w)
    as [(Hf & Hnone & ->)|[(Hf & c & d & Hfile & Hload & ->)|
        (Hcond & w0 & Hfiles & Hreqs & ->)]];
    cbn [fst snd print files]; auto.
  destruct (fetch_new_spec env featured self w0)
    as (data & w' & -> & _ & _ & Hw').
  cbn [fst snd]. rewrite Hfiles in Hw'.
  destruct data as [[|g gs]|]; rewrite Hw'.
  - repeat split; auto.
  - split; [|split].
    + intros path Hpath. now rewrite lookup_insert_ne.
    + right. eauto.
    + intros [H|H]; discriminate.
  - repeat split; auto.
Qed.

(** After a forced call that returned a non-empty feed, an unforced call
    returns the same feed from the cache file, without a request,
    provided [json.load] reads back what [json.dump] wrote and the cache
    file was not changed in between. *)
Theorem fetch_or_load_data_round_trip (env : Env)
    (featured : list (string * string)) (self : Scanner)
    (w w1 w2 : World) (g : Game) (gs : list Game) :
  fetch_or_load_data env featured self true w = (Some (g :: gs), w1) ->
  json_load env (json_dump env (g :: gs)) = Some (g :: gs) ->
  files w2 !! sport_cache_file self = files w1 !! sport_cache_file self ->
  exists w3,
    fetch_or_load_data env featured self false w2 = (Some (g :: gs), w3) /\
    requests w3 = requests w2 /\ files w3 = files w2.
Proof.
  intros Hfetch Hload Hsame.
  assert (files w1 !! sport_cache_file self = Some (json_dump env (g :: gs)))
    as Hcache.
  { destruct (fetch_or_load_data_cases env featured self true w)
      as [(Hf & _)|[(Hf & _)|(_ & w0 & Hfiles & _ & Heq)]];
      try discriminate.
    rewrite Heq in Hfetch.
    destruct (fetch_new_spec env featured self w0)
      as (data & w' & Hnew & _ & _ & Hw').
    rewrite Hnew in Hfetch. injection Hfetch as -> ->.
    rewrite Hw'. apply lookup_insert_eq. }
  rewrite Hcache in Hsame.
  unfold fetch_or_load_data, try_cache. rewrite Hsame. cbn [negb].
  rewrite Hload. eexists. split; [reflexivity|]. split; reflexivity.
Qed.

Lemma fetch_or_load_data_round_trip_witness :
  exists w1 g gs w3,
    fetch_or_load_data sample_env FEATURED_MARKETS sample_scanner true
                       empty_world = (Some (g :: gs), w1) /\
    json_load sample_env (json_dump sample_env (g :: gs)) = Some (g :: gs) /\
    fetch_or_load_data sample_env FEATURED_MARKETS sample_scanner false w1
      = (Some (g :: gs), w3) /\
    requests w3 = requests w1 /\ files w3 = files w1.
Proof.
  destruct (fetch_or_load_data sample_env FEATURED_MARKETS sample_scanner true
              empty_world) as [data w1] eqn:Hfetch.
  assert (data = Some feed_two_games) as ->.
  { vm_compute in Hfetch. now injection Hfetch as <- _. }
  exists w1, game_two_books, (tl feed_two_games).
  assert (json_load sample_env (json_dump sample_env feed_two_games)
          = Some feed_two_games) as Hload by reflexivity.
  destruct (fetch_or_load_data_round_trip sample_env FEATURED_MARKETS
              sample_scanner empty_world w1 w1 game_two_books
              (tl feed_two_games) Hfetch Hload eq_refl)
    as (w3 & H3 & Hr & Hf).
  exists w3. auto.
Defined.

(** * The report *)

Lemma report_market_step (args : Args) (out : list Event) (found : bool)
    (item : string * MarketResult) :
  report_market args (out, found) item =
  if shown_market args item then (out ++ market_lines item, true)
  else (out, found).
Proof.
  destruct item as [n data].
  unfold report_market, shown_market, market_lines. cbn [fst snd].
  destruct (arb_only args); destruct (arb data); cbn [andb orb negb];
    rewrite <- ?app_assoc, ?app_nil_r; reflexivity.
Qed.

Lemma report_market_fold (args : Args) (ms : list (string * MarketResult))
    (out : list Event) (found : bool) :
  fold_left (report_market args) ms (out, found) =
  (out ++ flat_map market_lines (List.filter (shown_market args) ms),
   found || existsb (shown_market args) ms).
Proof.
  revert out found. induction ms as [|item ms IH]; intros out found.
  - cbn. now rewrite app_nil_r, orb_false_r.
  - cbn [fold_left List.filter existsb]. rewrite report_market_step.
    destruct (shown_market args item); rewrite IH.
    + cbn [flat_map orb]. rewrite <- app_assoc. now rewrite orb_true_r.
    + reflexivity.
Qed.

Lemma has_arb_shown_market (args : Args) (g : GameResults) :
  arb_only args = true ->
  existsb (shown_market args) (markets g) = has_arb g.
Proof.
  intros Hao. unfold has_arb, dict_values, shown_market. rewrite Hao.
  cbn [negb orb]. induction (markets g) as [|[n d] ms IH]; [reflexivity|].
  cbn [existsb map snd]. now rewrite IH.
Qed.

Lemma report_game_step (self : Scanner) (args : Args) (out : list Event)
    (found : bool) (g : GameResults) :
  report_game self args (out, found) g =
  if shown_game args g
  then (out ++ game_lines self args g,
        found || existsb (shown_market args) (markets g))
  else (out, found).
Proof.
  unfold report_game, shown_game, game_lines. fold (has_arb g).
  destruct (arb_only args); destruct (has_arb g); cbn [andb orb negb];
    rewrite ?report_market_fold, <- ?app_assoc; reflexivity.
Qed.

Lemma report_game_fold (self : Scanner) (args : Args) (gs : list GameResults)
    (out : list Event) (found : bool) :
  fold_left (report_game self args) gs (out, found) =
  (out ++ flat_map (game_lines self args) (List.filter (shown_game args) gs),
   found || prints_a_market args gs).
Proof.
  revert out found. induction gs as [|g gs IH]; intros out found.
  - cbn. now rewrite app_nil_r, orb_false_r.
  - cbn [fold_left List.filter]. rewrite report_game_step.
    unfold prints_a_market. cbn [existsb]. fold (prints_a_market args gs).
    destruct (shown_game args g); rewrite IH; cbn [andb orb flat_map].
    + rewrite <- app_assoc. now rewrite orb_assoc.
    + reflexivity.
Qed.

Lemma prints_a_market_arb_only (args : Args) (gs : list GameResults) :
  arb_only args = true ->
  negb (prints_a_market args gs) = forallb (fun g => negb (has_arb g)) gs.
Proof.
  intros Hao. unfold prints_a_market.
  induction gs as [|g gs IH]; [reflexivity|].
  cbn [existsb forallb]. rewrite negb_orb, IH. f_equal.
  rewrite (has_arb_shown_market args g Hao).
  unfold shown_game. rewrite Hao. cbn [negb orb].
  now destruct (has_arb g).
Qed.

(** The report of [run_scanner] is the banner, then, game by game in
    the order of the list, the header and the markets of the games that
    are shown, then the closing line.  With [--arb-only] a game is shown
    when it has an arbitrage result and a market when it has one;
    without it everything is shown.  The closing line is "no games" for
    an empty list, and "no arbitrage" with [--arb-only] when no game has
    an arbitrage result. *)
Theorem report_is_report_as_list (self : Scanner) (args : Args)
    (total_budget : Q) (all_game_results : list GameResults) :
  report self args total_budget all_game_results =
  report_as_list self args total_budget all_game_results.
Proof.
  unfold report, report_as_list, closing_lines.
  rewrite report_game_fold. cbn [orb].
  destruct all_game_results as [|g gs] eqn:E.
  - cbn. reflexivity.
  - rewrite <- E.
    destruct (arb_only args) eqn:Hao; cbn [andb].
    + rewrite (prints_a_market_arb_only args _ Hao).
      destruct (forallb _ _); cbn [negb];
        rewrite <- ?app_assoc, ?app_nil_r; reflexivity.
    + now rewrite app_nil_r.
Qed.

(** * Whole runs *)












Lemma fetch_or_load_data_files_witness :
  let res := fetch_or_load_data sample_env FEATURED_MARKETS sample_scanner
                                true world_with_key in
  "my_key.txt"%string <> sport_cache_file sample_scanner /\
  files (snd res) !! "my_key.txt"%string
    = files world_with_key !! "my_key.txt"%string /\
  (files (snd res) = files world_with_key \/
   exists g gs, fst res = Some (g :: gs) /\
     files (snd res) =
       <[ sport_cache_file sample_scanner
          := json_dump sample_env (g :: gs) ]> (files world_with_key)).
Proof.
  cbn zeta.
  assert ("my_key.txt"%string <> sport_cache_file sample_scanner) as Hne
    by (vm_compute; discriminate).
  pose proof (fetch_or_load_data_files sample_env FEATURED_MARKETS
                sample_scanner true world_with_key) as (Hother & Hcache & _).
  split; [exact Hne|]. split; [exact (Hother _ Hne)|exact Hcache].
Defined.

(** * The snapshot of a market, bookmaker by bookmaker *)

(** The snapshot [scan_game_markets] builds for a market key holds, in
    the order of the game, one entry per bookmaker that lists the key,
    cut down to a single market entry with that key: the first one, so a
    second entry with the same key at one bookmaker is never looked
    at. *)
Theorem market_data_for_one_entry_per_book (g : Game) (market_key : string) :
  md_bookmakers (market_data_for g market_key) =
    flat_map (book_for market_key) (bookmakers g) /\
  Forall (fun b => exists m, bk_markets b = [m] /\ m_key m = market_key)
         (md_bookmakers (market_data_for g market_key)) /\
  map title (md_bookmakers (market_data_for g market_key))
    `sublist_of` map title (bookmakers g).
Proof.
  split; [apply market_data_for_books|]. rewrite market_data_for_books.
  induction (bookmakers g) as [|b bs [IH1 IH2]]; [split; constructor|].
  cbn [flat_map map]. unfold book_for at 1 3.
  destruct (find _ (bk_markets b)) as [m|] eqn:Hfind; cbn [app map title].
  - apply find_some in Hfind as [_ Hkey]. apply String.eqb_eq in Hkey.
    split; [constructor; [eauto|exact IH1]|now apply sublist_skip].
  - split; [exact IH1|now apply sublist_cons].
Qed.
